(** * fizzle: the forward renderer (forward_renderer.go)

    A shallow embedding of the lights, shadow maps, light bookkeeping,
    shadow-pass sequencing and scene-tree draw traversal of
    [forward_renderer.go], with the properties proved about them.

    Conventions.
    - [int32] fields are carried as [Z], GPU object names ([graphics.Texture],
      [graphics.Buffer], both [uint32]) as [N].
    - [float32] and the [mgl32] vector/matrix routines belong to an external
      library; they are an interface ([Mgl32]) the development is
      parametric in.  No rounding behaviour is assumed of them.
    - [gfx] is the global graphics provider.  Calls on it are recorded, in
      order, in a call log; values it hands back (fresh texture and
      framebuffer names) come from an oracle over the log so far.
    - A [*Light] is an address into a heap of lights; [nil] is [None].
    - A run-time panic (nil dereference, index out of range) is an explicit
      outcome that keeps the state reached when it happened. *)

From Stdlib Require Import ZArith QArith List Lia.
From stdpp Require Import base option list gmap.

Local Open Scope Z_scope.

(** ** External interfaces *)

(** [mgl.Vec3], [mgl.Vec4] and [mgl.Mat4] are arrays of 3, 4 and 16
    [float32]; a [Mat4] literal lists its entries column by column. *)
Definition vec3 (F : Type) : Type := (F * F * F)%type.
Definition vec4 (F : Type) : Type := (F * F * F * F)%type.
Definition mat4 (F : Type) : Type := list F.

(** The part of [mgl32] (and of [float32]) the renderer calls. *)
Class Mgl32 := {
  float32 : Type;
(** conversion of an untyped numeric constant of the source to [float32] *)
  const32 : Q -> float32;
(** unary minus on [float32] *)
  neg32 : float32 -> float32;
  Vec3_Add : vec3 float32 -> vec3 float32 -> vec3 float32;
  Mat4_Mul4 : mat4 float32 -> mat4 float32 -> mat4 float32;
  Ident4 : mat4 float32;
  LookAtV : vec3 float32 -> vec3 float32 -> vec3 float32 -> mat4 float32;
  Frustum : float32 -> float32 -> float32 -> float32 -> float32 -> float32
            -> mat4 float32
}.

Abbreviation Vec3 := (vec3 float32).
Abbreviation Vec4 := (vec4 float32).
Abbreviation Mat4 := (mat4 float32).

(** The named constants of package [graphicsprovider] that the renderer
    passes to the device.  Only their identity matters here. *)
Module graphics.
Inductive Enum : Set :=
  | TEXTURE0 | TEXTURE_2D | DEPTH_COMPONENT32 | DEPTH_COMPONENT | UNSIGNED_INT
  | TEXTURE_MAG_FILTER | TEXTURE_MIN_FILTER | LINEAR | TEXTURE_BORDER_COLOR
  | TEXTURE_WRAP_S | TEXTURE_WRAP_T | CLAMP_TO_BORDER | TEXTURE_COMPARE_MODE
  | COMPARE_REF_TO_TEXTURE | FRAMEBUFFER | NONE | POLYGON_OFFSET_FILL
  | CULL_FACE | FRONT | BACK | DEPTH_ATTACHMENT | DEPTH_BUFFER_BIT
  | TRIANGLES | LINES.

#[global] Instance Enum_eq_dec : EqDecision Enum.
Proof. solve_decision. Defined.

Definition Texture := N.
Definition Buffer := N.
End graphics.

(** ** Constants *)

Definition MaxForwardLights : nat := 4.

(** The sixteen entries of [shadowBiasMat] as written in the source. *)
Definition shadowBiasMat_entries : list Q :=
  [ 0.5; 0.0; 0.0; 0.0;
    0.0; 0.5; 0.0; 0.0;
    0.0; 0.0; 0.5; 0.0;
    0.5; 0.5; 0.5; 1.0 ]%Q.

Definition shadowBiasMat `{Mgl32} : Mat4 := map const32 shadowBiasMat_entries.

(** ** ShadowMap *)

Module ShadowMap.
Section Def.
Context `{Mgl32}.

Record t := Build {
  Texture : graphics.Texture;
  TextureSize : Z;
  Direction : Vec3;
  Near : float32;
  Far : float32;
  Up : Vec3;
  Projection : Mat4;
  View : Mat4;
  ViewProjMatrix : Mat4;
  BiasedMatrix : Mat4
}.

(** Field assignments [shady.X = v]. *)
Definition set_Texture (v : graphics.Texture) (s : t) : t :=
  Build v (TextureSize s) (Direction s) (Near s) (Far s) (Up s)
        (Projection s) (View s) (ViewProjMatrix s) (BiasedMatrix s).
Definition set_TextureSize (v : Z) (s : t) : t :=
  Build (Texture s) v (Direction s) (Near s) (Far s) (Up s)
        (Projection s) (View s) (ViewProjMatrix s) (BiasedMatrix s).
Definition set_Direction (v : Vec3) (s : t) : t :=
  Build (Texture s) (TextureSize s) v (Near s) (Far s) (Up s)
        (Projection s) (View s) (ViewProjMatrix s) (BiasedMatrix s).
Definition set_Near (v : float32) (s : t) : t :=
  Build (Texture s) (TextureSize s) (Direction s) v (Far s) (Up s)
        (Projection s) (View s) (ViewProjMatrix s) (BiasedMatrix s).
Definition set_Far (v : float32) (s : t) : t :=
  Build (Texture s) (TextureSize s) (Direction s) (Near s) v (Up s)
        (Projection s) (View s) (ViewProjMatrix s) (BiasedMatrix s).
Definition set_Up (v : Vec3) (s : t) : t :=
  Build (Texture s) (TextureSize s) (Direction s) (Near s) (Far s) v
        (Projection s) (View s) (ViewProjMatrix s) (BiasedMatrix s).
Definition set_Projection (v : Mat4) (s : t) : t :=
  Build (Texture s) (TextureSize s) (Direction s) (Near s) (Far s) (Up s)
        v (View s) (ViewProjMatrix s) (BiasedMatrix s).
Definition set_View (v : Mat4) (s : t) : t :=
  Build (Texture s) (TextureSize s) (Direction s) (Near s) (Far s) (Up s)
        (Projection s) v (ViewProjMatrix s) (BiasedMatrix s).
Definition set_ViewProjMatrix (v : Mat4) (s : t) : t :=
  Build (Texture s) (TextureSize s) (Direction s) (Near s) (Far s) (Up s)
        (Projection s) (View s) v (BiasedMatrix s).
Definition set_BiasedMatrix (v : Mat4) (s : t) : t :=
  Build (Texture s) (TextureSize s) (Direction s) (Near s) (Far s) (Up s)
        (Projection s) (View s) (ViewProjMatrix s) v.

(** The zero value of the struct, as [new(ShadowMap)] yields it. *)
Definition zero32 : float32 := const32 0.
Definition zeroVec3 : Vec3 := (zero32, zero32, zero32).
Definition zeroMat4 : Mat4 := repeat zero32 16.
Definition zero : t :=
  Build 0%N 0 zeroVec3 zero32 zero32 zeroVec3
        zeroMat4 zeroMat4 zeroMat4 zeroMat4.
End Def.
End ShadowMap.

(** [NewShadowMap]: a zeroed shadow map with the default up vector and
    identity projection and view. *)
Definition NewShadowMap `{Mgl32} : ShadowMap.t :=
  let shady := ShadowMap.zero in
  let shady := ShadowMap.set_Up (const32 0.0, const32 1.0, const32 0.0)%Q shady in
  let shady := ShadowMap.set_Projection Ident4 shady in
  let shady := ShadowMap.set_View Ident4 shady in
  shady.

(** ** Light *)

Module Light.
Section Def.
Context `{Mgl32}.

(** [ShadowMap] is [None] when the light casts no shadow (a nil
    [*ShadowMap]); the pointed-to struct is owned by the light. *)
Record t := Build {
  Position : Vec3;
  Direction : Vec3;
  DiffuseColor : Vec4;
  DiffuseIntensity : float32;
  AmbientIntensity : float32;
  Attenuation : float32;
  ShadowMap : option ShadowMap.t
}.

Definition set_Position (v : Vec3) (l : t) : t :=
  Build v (Direction l) (DiffuseColor l) (DiffuseIntensity l)
        (AmbientIntensity l) (Attenuation l) (ShadowMap l).
Definition set_ShadowMap (v : option ShadowMap.t) (l : t) : t :=
  Build (Position l) (Direction l) (DiffuseColor l) (DiffuseIntensity l)
        (AmbientIntensity l) (Attenuation l) v.

Definition zero : t :=
  Build ShadowMap.zeroVec3 ShadowMap.zeroVec3
        (ShadowMap.zero32, ShadowMap.zero32, ShadowMap.zero32, ShadowMap.zero32)
        ShadowMap.zero32 ShadowMap.zero32 ShadowMap.zero32 None.
End Def.
End Light.

Definition NewLight `{Mgl32} : Light.t := Light.zero.

(** A [*Light]: the address of a light on the heap. *)
Definition LightPtr := positive.

(** ** Scene tree *)

(** The declarations of [Renderable], [RenderableCore], [RenderShader] and
    [RenderBinder] are in another file of the package; the renderer only
    passes shaders and binders on, and reads [Shader] off a core. *)
Class SceneTypes := {
  RenderShader : Type;
  RenderBinder : Type;
  RenderableCore : Type;
  Shader : RenderableCore -> RenderShader
}.

#[local] Unset Elimination Schemes.

(** Modelled from the spec: the type [Renderable], not declared in
    [forward_renderer.go].  A node has a visibility flag, an is-group flag,
    its children in draw order and a drawable core; nodes form a tree (no
    sharing, no cycles), hence an inductive type. *)
Inductive Renderable `{SceneTypes} : Type :=
  mkRenderable {
    IsVisible : bool;
    IsGroup : bool;
    Children : list Renderable;
    Core : RenderableCore
  }.
#[local] Set Elimination Schemes.
Arguments mkRenderable {_} _ _ _ _.

(** ** The graphics device *)

Section Renderer.
Context `{Mgl32} `{SceneTypes}.

(** One entry of the call log: a method of [gfx] with its arguments (and,
    for the two generators, the name the device returned), or one of the
    three steps of [bindAndDraw]. *)
Inductive GfxCall : Type :=
| DeleteTexture (tex : graphics.Texture)
| GenTexture (ret : graphics.Texture)
| ActiveTexture (unit_ : graphics.Enum)
| BindTexture (target : graphics.Enum) (tex : graphics.Texture)
| TexImage2D (target : graphics.Enum) (level : Z) (internalformat : graphics.Enum)
             (w h : Z) (border : Z) (format ty : graphics.Enum)
| TexParameteri (target pname param : graphics.Enum)
| TexParameterfv (target pname : graphics.Enum) (params : Vec4)
| GenFramebuffer (ret : graphics.Buffer)
| BindFramebuffer (target : graphics.Enum) (buf : graphics.Buffer)
| DrawBuffers (bufs : list graphics.Enum)
| ReadBuffer (src : graphics.Enum)
| Enable (cap : graphics.Enum)
| Disable (cap : graphics.Enum)
| PolygonOffset (factor units : float32)
| CullFace (mode : graphics.Enum)
| FramebufferTexture2D (target attachment textarget : graphics.Enum)
                       (tex : graphics.Texture) (level : Z)
| Clear (mask : graphics.Enum)
| Viewport (x y w h : Z)
| BindShader (shader : RenderShader)
| InvokeBinder (binder : RenderBinder) (r : Renderable) (shader : RenderShader)
               (perspective view : Mat4)
| DrawCall (r : Renderable) (mode : graphics.Enum).

(** Names the device hands out, as a function of everything it has been
    asked so far. *)
Variable fresh_texture : list GfxCall -> graphics.Texture.
Variable fresh_framebuffer : list GfxCall -> graphics.Buffer.

(** ** Renderer state *)

(** The fields of [ForwardRenderer] that the modelled methods touch; the
    window, the UI manager, the resize callback and the frame time are left
    out. *)
Record ForwardRenderer := mkForwardRenderer {
  ActiveLights : list (option LightPtr);
  width : Z;
  height : Z;
  shadowFBO : graphics.Buffer;
  currentShadowPassLight : option LightPtr
}.

Definition set_ActiveLights (v : list (option LightPtr)) (fr : ForwardRenderer) :=
  mkForwardRenderer v (width fr) (height fr) (shadowFBO fr) (currentShadowPassLight fr).
Definition set_width (v : Z) (fr : ForwardRenderer) :=
  mkForwardRenderer (ActiveLights fr) v (height fr) (shadowFBO fr) (currentShadowPassLight fr).
Definition set_height (v : Z) (fr : ForwardRenderer) :=
  mkForwardRenderer (ActiveLights fr) (width fr) v (shadowFBO fr) (currentShadowPassLight fr).
Definition set_shadowFBO (v : graphics.Buffer) (fr : ForwardRenderer) :=
  mkForwardRenderer (ActiveLights fr) (width fr) (height fr) v (currentShadowPassLight fr).
Definition set_currentShadowPassLight (v : option LightPtr) (fr : ForwardRenderer) :=
  mkForwardRenderer (ActiveLights fr) (width fr) (height fr) (shadowFBO fr) v.

(** [new(ForwardRenderer)]: every slot nil, every number zero. *)
Definition NewForwardRenderer : ForwardRenderer :=
  mkForwardRenderer (repeat None MaxForwardLights) 0 0 0%N None.

(** Everything a method can read or write: the receiver, the lights on the
    heap and the device's call log (oldest call first). *)
Record World := mkWorld {
  renderer : ForwardRenderer;
  heap : gmap LightPtr Light.t;
  calls : list GfxCall
}.

Definition set_renderer (v : ForwardRenderer) (w : World) : World :=
  mkWorld v (heap w) (calls w).
Definition set_heap (v : gmap LightPtr Light.t) (w : World) : World :=
  mkWorld (renderer w) v (calls w).
Definition set_calls (v : list GfxCall) (w : World) : World :=
  mkWorld (renderer w) (heap w) v.

(** ** Computations: state plus panic *)

Inductive Outcome (A : Type) : Type :=
| Done (a : A) (w : World)
| Panicked (w : World).
Arguments Done {A} a w.
Arguments Panicked {A} w.

Definition M (A : Type) : Type := World -> Outcome A.

Definition ret {A} (a : A) : M A := fun w => Done a w.
Definition bind {A B} (m : M A) (k : A -> M B) : M B :=
  fun w => match m w with
           | Done a w' => k a w'
           | Panicked w' => Panicked w'
           end.
Definition panic {A} : M A := fun w => Panicked w.

Notation "x <- m ;; k" := (bind m (fun x => k))
  (at level 100, m at next level, right associativity).
Notation "m ;;; k" := (bind m (fun _ => k))
  (at level 100, right associativity).

Definition final_world {A} (o : Outcome A) : World :=
  match o with Done _ w => w | Panicked w => w end.

(** [gfx c]: perform one device call, i.e. append it to the log. *)
Definition gfx (c : GfxCall) : M unit :=
  fun w => Done tt (set_calls (calls w ++ [c]) w).

Definition gfx_GenTexture : M graphics.Texture :=
  fun w => let t := fresh_texture (calls w) in
           Done t (set_calls (calls w ++ [GenTexture t]) w).

Definition gfx_GenFramebuffer : M graphics.Buffer :=
  fun w => let b := fresh_framebuffer (calls w) in
           Done b (set_calls (calls w ++ [GenFramebuffer b]) w).

(** Reading and writing through a [*Light].  An address without a light
    behind it does not occur in Go; it is treated like nil. *)
Definition load (l : LightPtr) : M Light.t :=
  fun w => match heap w !! l with
           | Some L => Done L w
           | None => Panicked w
           end.
Definition store (l : LightPtr) (L : Light.t) : M unit :=
  fun w => Done tt (set_heap (<[l := L]> (heap w)) w).

Definition get_renderer : M ForwardRenderer := fun w => Done (renderer w) w.
Definition put_renderer (fr : ForwardRenderer) : M unit :=
  fun w => Done tt (set_renderer fr w).

(** [range f xs]: the loop [for _, x := range xs { f(x) }]. *)
Definition range {A} (f : A -> M unit) : list A -> M unit :=
  fix go (xs : list A) : M unit :=
    match xs with
    | [] => ret tt
    | x :: rest => f x ;;; go rest
    end.

(** ** Lights and their shadow maps *)

(** [ShadowMap.Destroy]: delete the texture of the shadow map. *)
Definition ShadowMap_Destroy (shady : ShadowMap.t) : M unit :=
  gfx (DeleteTexture (ShadowMap.Texture shady)).

(** [Light.CreateShadowMap]. *)
Definition CreateShadowMap (l : LightPtr) (textureSize : Z)
    (near far : float32) (dir : Vec3) : M unit :=
  L <- load l ;;
  (* if there was already a shadow map, destroy it *)
  match Light.ShadowMap L with
  | Some old => ShadowMap_Destroy old
  | None => ret tt
  end ;;;
  (* allocate a new structure and set up the projection *)
  let shady := NewShadowMap in
  let shady := ShadowMap.set_Near near shady in
  let shady := ShadowMap.set_Far far shady in
  let factor := const32 0.5 in
  let shady := ShadowMap.set_Projection
                 (Frustum (neg32 factor) factor (neg32 factor) factor near far)
                 shady in
  let shady := ShadowMap.set_TextureSize textureSize shady in
  let shady := ShadowMap.set_Direction dir shady in
  (* create the shadow map texture *)
  tex <- gfx_GenTexture ;;
  let shady := ShadowMap.set_Texture tex shady in
  store l (Light.set_ShadowMap (Some shady) L) ;;;
  gfx (ActiveTexture graphics.TEXTURE0) ;;;
  gfx (BindTexture graphics.TEXTURE_2D tex) ;;;
  gfx (TexImage2D graphics.TEXTURE_2D 0 graphics.DEPTH_COMPONENT32
         textureSize textureSize 0 graphics.DEPTH_COMPONENT graphics.UNSIGNED_INT) ;;;
  gfx (TexParameteri graphics.TEXTURE_2D graphics.TEXTURE_MAG_FILTER graphics.LINEAR) ;;;
  gfx (TexParameteri graphics.TEXTURE_2D graphics.TEXTURE_MIN_FILTER graphics.LINEAR) ;;;
  (* white border, clamped, so that points outside the map are not in shadow *)
  let shadowmapBorder : Vec4 :=
    (const32 1.0, const32 1.0, const32 1.0, const32 1.0)%Q in
  gfx (TexParameterfv graphics.TEXTURE_2D graphics.TEXTURE_BORDER_COLOR shadowmapBorder) ;;;
  gfx (TexParameteri graphics.TEXTURE_2D graphics.TEXTURE_WRAP_S graphics.CLAMP_TO_BORDER) ;;;
  gfx (TexParameteri graphics.TEXTURE_2D graphics.TEXTURE_WRAP_T graphics.CLAMP_TO_BORDER) ;;;
  gfx (TexParameteri graphics.TEXTURE_2D graphics.TEXTURE_COMPARE_MODE
         graphics.COMPARE_REF_TO_TEXTURE) ;;;
  (* a safety unbind *)
  gfx (BindTexture graphics.TEXTURE_2D 0%N).

(** The assignments [UpdateShadowMapData] makes to a shadow map, given the
    position of the owning light. *)
Definition recompute (position : Vec3) (shady : ShadowMap.t) : ShadowMap.t :=
  (* construct a dummy target along the direction vector *)
  let target := Vec3_Add position (ShadowMap.Direction shady) in
  (* update the view matrix *)
  let shady := ShadowMap.set_View
                 (LookAtV position target (ShadowMap.Up shady)) shady in
  (* update the view projection matrix *)
  let shady := ShadowMap.set_ViewProjMatrix
                 (Mat4_Mul4 (ShadowMap.Projection shady) (ShadowMap.View shady))
                 shady in
  (* update the shadow biased matrix *)
  let shady := ShadowMap.set_BiasedMatrix
                 (Mat4_Mul4 shadowBiasMat (ShadowMap.ViewProjMatrix shady))
                 shady in
  shady.

(** [Light.UpdateShadowMapData]. *)
Definition UpdateShadowMapData (l : LightPtr) : M unit :=
  L <- load l ;;
  match Light.ShadowMap L with
  | None => ret tt
  | Some shady =>
      store l (Light.set_ShadowMap (Some (recompute (Light.Position L) shady)) L)
  end.

(** ** The renderer *)

(** Go's [error]: [None] is the nil error. *)
Definition error := option unit.

(** [ForwardRenderer.Init]. *)
Definition Init (width height : Z) : M error :=
  fr <- get_renderer ;;
  put_renderer (set_width width fr) ;;;
  fr <- get_renderer ;;
  put_renderer (set_height height fr) ;;;
  ret None.

(** [ForwardRenderer.GetResolution]. *)
Definition GetResolution : M (Z * Z) :=
  fr <- get_renderer ;;
  ret (width fr, height fr).

(** The body of the counting loops, with [n] iterations left and the loop
    variable at [i]; [stop a] tells whether slot contents [a] end the count.
    Indexing the array out of range panics ([None]). *)
Fixpoint count_until (stop : option LightPtr -> option bool)
    (slots : list (option LightPtr)) (n i : nat) : option nat :=
  match n with
  | O => Some MaxForwardLights
  | S n' =>
      match slots !! i with
      | None => None
      | Some a =>
          match stop a with
          | None => None
          | Some true => Some i
          | Some false => count_until stop slots n' (S i)
          end
      end
  end.

(** [ForwardRenderer.GetActiveLightCount]:
    [fr.ActiveLights[i] == nil] ends the count. *)
Definition GetActiveLightCount (fr : ForwardRenderer) : option nat :=
  count_until (fun a => Some (bool_decide (a = None)))
              (ActiveLights fr) MaxForwardLights 0.

(** [ForwardRenderer.GetActiveShadowLightCount]:
    [fr.ActiveLights[i] == nil || fr.ActiveLights[i].ShadowMap == nil]
    ends the count; the second test reads the light behind the pointer. *)
Definition GetActiveShadowLightCount (fr : ForwardRenderer)
    (hp : gmap LightPtr Light.t) : option nat :=
  count_until (fun a => match a with
                        | None => Some true
                        | Some l =>
                            match hp !! l with
                            | None => None
                            | Some L => Some (bool_decide (Light.ShadowMap L = None))
                            end
                        end)
              (ActiveLights fr) MaxForwardLights 0.

(** [ForwardRenderer.SetupShadowMapRendering]. *)
Definition SetupShadowMapRendering : M unit :=
  fbo <- gfx_GenFramebuffer ;;
  fr <- get_renderer ;;
  put_renderer (set_shadowFBO fbo fr) ;;;
  gfx (BindFramebuffer graphics.FRAMEBUFFER fbo) ;;;
  let drawBuffers := [graphics.NONE] in
  gfx (DrawBuffers drawBuffers) ;;;
  gfx (ReadBuffer graphics.NONE) ;;;
  gfx (BindFramebuffer graphics.FRAMEBUFFER 0%N).

(** [ForwardRenderer.StartShadowMapping]. *)
Definition StartShadowMapping : M unit :=
  fr <- get_renderer ;;
  gfx (BindFramebuffer graphics.FRAMEBUFFER (shadowFBO fr)) ;;;
  gfx (Enable graphics.POLYGON_OFFSET_FILL) ;;;
  gfx (PolygonOffset (const32 4.0%Q) (const32 4.0%Q)) ;;;
  gfx (Enable graphics.CULL_FACE) ;;;
  gfx (CullFace graphics.FRONT) ;;;
  fr <- get_renderer ;;
  put_renderer (set_currentShadowPassLight None fr).

(** [ForwardRenderer.EndShadowMapping]. *)
Definition EndShadowMapping : M unit :=
  gfx (CullFace graphics.BACK) ;;;
  gfx (Disable graphics.CULL_FACE) ;;;
  gfx (Disable graphics.POLYGON_OFFSET_FILL) ;;;
  gfx (BindFramebuffer graphics.FRAMEBUFFER 0%N) ;;;
  fr <- get_renderer ;;
  put_renderer (set_currentShadowPassLight None fr).

(** [l.ShadowMap.X] for a light read back from the heap: a nil [ShadowMap]
    panics. *)
Definition shadow_map_of (l : LightPtr) : M ShadowMap.t :=
  L <- load l ;;
  match Light.ShadowMap L with
  | Some shady => ret shady
  | None => panic
  end.

(** [ForwardRenderer.EnableShadowMappingLight]. *)
Definition EnableShadowMappingLight (l : LightPtr) : M unit :=
  fr <- get_renderer ;;
  put_renderer (set_currentShadowPassLight (Some l) fr) ;;;
  UpdateShadowMapData l ;;;
  shady <- shadow_map_of l ;;
  gfx (FramebufferTexture2D graphics.FRAMEBUFFER graphics.DEPTH_ATTACHMENT
         graphics.TEXTURE_2D (ShadowMap.Texture shady) 0) ;;;
  gfx (Clear graphics.DEPTH_BUFFER_BIT) ;;;
  shady <- shadow_map_of l ;;
  gfx (Viewport 0 0 (ShadowMap.TextureSize shady) (ShadowMap.TextureSize shady)).

(** ** Drawing *)

(** Modelled from the spec: [bindAndDraw], defined in another file of the
    package.  At a leaf it binds the chosen shader, invokes the external
    binder, and issues one draw call with the given primitive topology. *)
Definition bindAndDraw (r : Renderable) (shader : RenderShader)
    (binder : RenderBinder) (perspective view : Mat4) (mode : graphics.Enum) : M unit :=
  gfx (BindShader shader) ;;;
  gfx (InvokeBinder binder r shader perspective view) ;;;
  gfx (DrawCall r mode).

(** [ForwardRenderer.DrawRenderable]. *)
Fixpoint DrawRenderable (r : Renderable) (binder : RenderBinder)
    (perspective view : Mat4) {struct r} : M unit :=
  (* only draw visible nodes *)
  if negb (IsVisible r) then ret tt else
  (* if the renderable is a group, just try to draw the children *)
  if IsGroup r then
    range (fun child => DrawRenderable child binder perspective view) (Children r)
  else
    bindAndDraw r (Shader (Core r)) binder perspective view graphics.TRIANGLES.

(** [ForwardRenderer.DrawRenderableWithShader]. *)
Fixpoint DrawRenderableWithShader (r : Renderable) (shader : RenderShader)
    (binder : RenderBinder) (perspective view : Mat4) {struct r} : M unit :=
  if negb (IsVisible r) then ret tt else
  if IsGroup r then
    range (fun child => DrawRenderableWithShader child shader binder perspective view)
          (Children r)
  else
    bindAndDraw r shader binder perspective view graphics.TRIANGLES.

(** [ForwardRenderer.DrawLines]. *)
Fixpoint DrawLines (r : Renderable) (shader : RenderShader)
    (binder : RenderBinder) (perspective view : Mat4) {struct r} : M unit :=
  if negb (IsVisible r) then ret tt else
  if IsGroup r then
    range (fun child => DrawLines child shader binder perspective view) (Children r)
  else
    bindAndDraw r shader binder perspective view graphics.LINES.

(** ** Observations used in the statements *)

(** The world a computation is run in when only the calls it issues are of
    interest: a zeroed renderer, no lights, an empty log. *)
Definition empty_world : World := mkWorld NewForwardRenderer ∅ [].

(** The device calls [m] issues when run in the empty world. *)
Definition emitted {A} (m : M A) : list GfxCall :=
  calls (final_world (m empty_world)).

(** The calls [m] adds to the log when run in [w]. *)
Definition issued {A} (m : M A) (w : World) : list GfxCall :=
  drop (length (calls w)) (calls (final_world (m w))).

Definition is_DrawCall (c : GfxCall) : bool :=
  match c with DrawCall _ _ => true | _ => false end.
Definition is_DeleteTexture (c : GfxCall) : bool :=
  match c with DeleteTexture _ => true | _ => false end.

(** The three kinds of call [bindAndDraw] makes. *)
Definition is_draw_step (c : GfxCall) : bool :=
  match c with
  | BindShader _ | InvokeBinder _ _ _ _ _ | DrawCall _ _ => true
  | _ => false
  end.

(** How many draw calls a stretch of the log holds. *)
Definition draw_call_count (cs : list GfxCall) : nat :=
  length (List.filter is_DrawCall cs).

(** The textures released and allocated in a stretch of the log, in order. *)
Fixpoint deleted (cs : list GfxCall) : list graphics.Texture :=
  match cs with
  | [] => []
  | DeleteTexture t :: cs' => t :: deleted cs'
  | _ :: cs' => deleted cs'
  end.
Fixpoint generated (cs : list GfxCall) : list graphics.Texture :=
  match cs with
  | [] => []
  | GenTexture t :: cs' => t :: generated cs'
  | _ :: cs' => generated cs'
  end.

(** The textures attached as depth target of the framebuffer, in order. *)
Fixpoint depth_attachments (cs : list GfxCall) : list graphics.Texture :=
  match cs with
  | [] => []
  | FramebufferTexture2D graphics.FRAMEBUFFER graphics.DEPTH_ATTACHMENT
                         graphics.TEXTURE_2D t _ :: cs' => t :: depth_attachments cs'
  | _ :: cs' => depth_attachments cs'
  end.

(** Modelled from the spec: the state the graphics device is left in by a
    call log.  The device is an external collaborator; its face-culling
    direction, capabilities and framebuffer binding are those of the last
    call that set them, starting from back-face culling, every capability
    off and no framebuffer bound. *)
Definition cull_face_mode (cs : list GfxCall) : graphics.Enum :=
  fold_left (fun st c => match c with CullFace mode => mode | _ => st end)
            cs graphics.BACK.
Definition cap_enabled (cap : graphics.Enum) (cs : list GfxCall) : bool :=
  fold_left (fun st c => match c with
                         | Enable c' => if decide (c' = cap) then true else st
                         | Disable c' => if decide (c' = cap) then false else st
                         | _ => st
                         end)
            cs false.
Definition bound_framebuffer (cs : list GfxCall) : graphics.Buffer :=
  fold_left (fun st c => match c with
                         | BindFramebuffer graphics.FRAMEBUFFER b => b
                         | _ => st
                         end)
            cs 0%N.

(** One top-level draw request of a client, through any of the three entry
    points. *)
Inductive DrawRequest : Type :=
| ReqDrawRenderable (r : Renderable) (binder : RenderBinder) (perspective view : Mat4)
| ReqDrawRenderableWithShader (r : Renderable) (shader : RenderShader)
    (binder : RenderBinder) (perspective view : Mat4)
| ReqDrawLines (r : Renderable) (shader : RenderShader)
    (binder : RenderBinder) (perspective view : Mat4).

Definition draw (q : DrawRequest) : M unit :=
  match q with
  | ReqDrawRenderable r binder perspective view =>
      DrawRenderable r binder perspective view
  | ReqDrawRenderableWithShader r shader binder perspective view =>
      DrawRenderableWithShader r shader binder perspective view
  | ReqDrawLines r shader binder perspective view =>
      DrawLines r shader binder perspective view
  end.

(** A shadow pass over two lights, with the client's draws after each
    light is enabled. *)
Definition shadow_pass (l1 : LightPtr) (draws1 : list DrawRequest)
    (l2 : LightPtr) (draws2 : list DrawRequest) : M unit :=
  StartShadowMapping ;;;
  EnableShadowMappingLight l1 ;;;
  range draw draws1 ;;;
  EnableShadowMappingLight l2 ;;;
  range draw draws2 ;;;
  EndShadowMapping.

(** [m] never panics and does nothing but add the same calls to the log,
    whatever world it is run in. *)
Definition log_only (m : M unit) : Prop :=
  exists cs, forall w, m w = Done tt (set_calls (calls w ++ cs) w).

(** What it means for an entry point [T] to draw a tree by a pruned
    traversal, [leaf_calls r] being the device calls made for a leaf [r]:
    - [T] never panics and only adds to the call log;
    - an invisible node adds nothing, whatever its kind, children and core;
    - a visible group is the loop of [T] over its children, and what it adds
      is what the children add, in list order, and nothing else;
    - a visible leaf adds [leaf_calls], exactly one of which is a draw call;
    - the tree [Group{visible}[A{visible}, Group{invisible}[B]]] makes one
      draw call, the one for [A], in mode [mode]. *)
Definition pruned_traversal (T : Renderable -> M unit)
    (leaf_calls : Renderable -> list GfxCall) (mode : graphics.Enum) : Prop :=
  (forall r w, T r w = Done tt (set_calls (calls w ++ emitted (T r)) w)) /\
  (forall isGroup children core,
     emitted (T (mkRenderable false isGroup children core)) = []) /\
  (forall children core,
     T (mkRenderable true true children core) = range T children /\
     emitted (T (mkRenderable true true children core))
     = flat_map (fun child => emitted (T child)) children) /\
  (forall children core,
     let r := mkRenderable true false children core in
     emitted (T r) = leaf_calls r /\
     List.filter is_DrawCall (emitted (T r)) = [DrawCall r mode] /\
     draw_call_count (emitted (T r)) = 1%nat) /\
  (forall coreA coreB visibleB coreRoot coreInner,
     let A := mkRenderable true false [] coreA in
     let B := mkRenderable visibleB false [] coreB in
     let tree := mkRenderable true true
                   [A; mkRenderable false true [B] coreInner] coreRoot in
     List.filter is_DrawCall (emitted (T tree)) = [DrawCall A mode] /\
     draw_call_count (emitted (T tree)) = 1%nat).

(** The renderer's lights are well placed in memory: the array has its
    declared length and every pointer in it has a light behind it. *)
Definition slots_ok (fr : ForwardRenderer) (hp : gmap LightPtr Light.t) : Prop :=
  length (ActiveLights fr) = MaxForwardLights /\
  forall i l, ActiveLights fr !! i = Some (Some l) -> is_Some (hp !! l).

End Renderer.

Arguments Done {_ _ A} a w.
Arguments Panicked {_ _ A} w.

(** ** The bias matrix as a map on points *)

(** The product of a 4x4 matrix, given by its entries column by column,
    with a column vector, in exact rational arithmetic: what a matrix does
    to a point when nothing is rounded. *)
Definition apply_exact (m : list Q) (v : Q * Q * Q * Q) : Q * Q * Q * Q :=
  let e i := nth i m 0%Q in
  let '(x, y, z, w) := v in
  (e 0%nat * x + e 4%nat * y + e 8%nat * z + e 12%nat * w,
   e 1%nat * x + e 5%nat * y + e 9%nat * z + e 13%nat * w,
   e 2%nat * x + e 6%nat * y + e 10%nat * z + e 14%nat * w,
   e 3%nat * x + e 7%nat * y + e 11%nat * z + e 15%nat * w)%Q.

(** ** A concrete instance to run the renderer on *)

#[local] Unset Elimination Schemes.

(** [mgl32] left uninterpreted: every routine builds the term that names
    its result, entry by entry. *)
Inductive sym32 : Type :=
| sym_const (q : Q)
| sym_neg (x : sym32)
| sym_add (x y : sym32)
| sym_ident (i : nat)
| sym_mul4 (a b : list sym32) (i : nat)
| sym_lookat (eye center up : sym32 * sym32 * sym32) (i : nat)
| sym_frustum (left right bottom top near far : sym32) (i : nat).
#[local] Set Elimination Schemes.

Definition SymbolicMgl32 : Mgl32 := {|
  float32 := sym32;
  const32 := sym_const;
  neg32 := sym_neg;
  Vec3_Add := fun a b =>
    (sym_add a.1.1 b.1.1, sym_add a.1.2 b.1.2, sym_add a.2 b.2);
  Mat4_Mul4 := fun a b => map (sym_mul4 a b) (seq 0 16);
  Ident4 := map sym_ident (seq 0 16);
  LookAtV := fun eye center up => map (sym_lookat eye center up) (seq 0 16);
  Frustum := fun l r b t n f => map (sym_frustum l r b t n f) (seq 0 16)
|}.

(** Shaders and binders named by numbers; a core is the number of its
    shader. *)
Definition NumberedScene : SceneTypes := {|
  RenderShader := N;
  RenderBinder := N;
  RenderableCore := N;
  Shader := fun core => core
|}.

(** A device that numbers its textures and framebuffers by the length of
    the log. *)
Definition counting_device {A} (cs : list A) : N := N.of_nat (S (length cs)).

(** ** A sample world *)

Section Sample.
#[local] Existing Instance SymbolicMgl32.
#[local] Existing Instance NumberedScene.

(** A shadow map as [CreateShadowMap] leaves it, with texture [tex] of edge
    1024 pointing down. *)
Definition sample_shadow_map (tex : graphics.Texture) : ShadowMap.t :=
  ShadowMap.set_Texture tex
    (ShadowMap.set_TextureSize 1024%Z
       (ShadowMap.set_Direction
          (const32 0.0%Q, neg32 (const32 1.0%Q), const32 0.0%Q)
          NewShadowMap)).

Definition sample_plain_light : Light.t := NewLight.

Definition sample_shadow_light (tex : graphics.Texture) : Light.t :=
  Light.set_ShadowMap (Some (sample_shadow_map tex)) NewLight.

(** Lights 1 and 2 cast shadows (textures 7 and 9), light 3 does not. *)
Definition sample_heap : gmap LightPtr Light.t :=
  <[1%positive := sample_shadow_light 7%N]>
    (<[2%positive := sample_shadow_light 9%N]>
       (<[3%positive := sample_plain_light]> ∅)).

(** The two shadow casters are active, the other two slots are empty. *)
Definition sample_renderer : ForwardRenderer :=
  set_ActiveLights [Some 1%positive; Some 2%positive; None; None]
                   NewForwardRenderer.

Definition sample_world : World :=
  mkWorld sample_renderer sample_heap [].

(** A visible group holding a visible leaf and an invisible group with a
    leaf of its own. *)
Definition sample_tree : Renderable :=
  mkRenderable true true
    [ mkRenderable true false [] 11%N;
      mkRenderable false true [mkRenderable true false [] 12%N] 0%N ]
    0%N.

End Sample.

(** ** Further operations and observations *)

(** The leaves a draw reaches, in draw order: nothing under an invisible
    node, the children's leaves under a visible group, the node itself
    otherwise. *)
Fixpoint visible_leaves `{SceneTypes} (r : Renderable) : list Renderable :=
  if negb (IsVisible r) then []
  else if IsGroup r then flat_map visible_leaves (Children r)
  else [r].

Section Further.
Context `{Mgl32} `{SceneTypes}.

Local Notation "x <- m ;; k" := (bind m (fun x => k))
  (at level 100, m at next level, right associativity).
Local Notation "m ;;; k" := (bind m (fun _ => k))
  (at level 100, right associativity).

(** [ForwardRenderer.ChangeResolution].  The callback field
    [OnScreenSizeChanged] is not part of the modelled record; it is read
    here from a parameter, [None] being the nil function.  The callback is
    handed the renderer, i.e. it runs on the world.  [Init]'s result is
    dropped, as in the source. *)
Definition ChangeResolution (OnScreenSizeChanged : option (Z -> Z -> M unit))
    (width height : Z) : M unit :=
  Init width height ;;;
  match OnScreenSizeChanged with
  | Some callback => callback width height
  | None => ret tt
  end.

(** The callback [NewForwardRenderer] installs: it does nothing. *)
Definition default_OnScreenSizeChanged : option (Z -> Z -> M unit) :=
  Some (fun _ _ => ret tt).

(** A shadow pass over any number of lights: [StartShadowMapping], then for
    each light [EnableShadowMappingLight] followed by the client's draws,
    then [EndShadowMapping]. *)
Definition shadow_pass_over (passes : list (LightPtr * list DrawRequest)) : M unit :=
  StartShadowMapping ;;;
  range (fun pass => EnableShadowMappingLight pass.1 ;;; range draw pass.2) passes ;;;
  EndShadowMapping.

(** Modelled from the spec: the 2D texture the device has bound after a
    call log, the one of the last [BindTexture] on [TEXTURE_2D], none (0) at
    the start. *)
Definition bound_texture_2d (cs : list GfxCall) : graphics.Texture :=
  fold_left (fun st c => match c with
                         | BindTexture graphics.TEXTURE_2D t => t
                         | _ => st
                         end)
            cs 0%N.

(** The viewports set in a stretch of the log, in order. *)
Fixpoint viewports (cs : list GfxCall) : list (Z * Z * Z * Z) :=
  match cs with
  | [] => []
  | Viewport x y w h :: cs' => (x, y, w, h) :: viewports cs'
  | _ :: cs' => viewports cs'
  end.

(** The nodes handed to draw calls in a stretch of the log, in order. *)
Fixpoint drawn_nodes (cs : list GfxCall) : list Renderable :=
  match cs with
  | [] => []
  | DrawCall r _ :: cs' => r :: drawn_nodes cs'
  | _ :: cs' => drawn_nodes cs'
  end.

(** Whether a slot holds a light. *)
Definition occupied (a : option LightPtr) : bool :=
  match a with Some _ => true | None => false end.

(** Whether a slot holds a light that casts shadows. *)
Definition casts_shadow (hp : gmap LightPtr Light.t) (a : option LightPtr) : bool :=
  match a with
  | Some l => match hp !! l with
              | Some L => match Light.ShadowMap L with Some _ => true | None => false end
              | None => false
              end
  | None => false
  end.

(** [l.ShadowMap.Texture] and [l.ShadowMap.TextureSize] for the light
    behind [l], when it has a shadow map. *)
Definition shadow_texture (hp : gmap LightPtr Light.t) (l : LightPtr)
    : option graphics.Texture :=
  match hp !! l with
  | Some L => match Light.ShadowMap L with
              | Some shady => Some (ShadowMap.Texture shady)
              | None => None
              end
  | None => None
  end.
Definition shadow_texture_size (hp : gmap LightPtr Light.t) (l : LightPtr)
    : option Z :=
  match hp !! l with
  | Some L => match Light.ShadowMap L with
              | Some shady => Some (ShadowMap.TextureSize shady)
              | None => None
              end
  | None => None
  end.

(** The arguments of one [CreateShadowMap] call. *)
Record ShadowMapArgs := mkShadowMapArgs {
  arg_textureSize : Z;
  arg_near : float32;
  arg_far : float32;
  arg_dir : Vec3
}.

End Further.

Section FurtherSample.
#[local] Existing Instance SymbolicMgl32.
#[local] Existing Instance NumberedScene.

(** The sample world with the plain light moved to the front of the array. *)
Definition sample_world_plain_first : World :=
  mkWorld (set_ActiveLights [Some 3%positive; Some 1%positive; None; None]
                            NewForwardRenderer)
          sample_heap [].

(** Arguments for a shadow map of edge 512 pointing down. *)
Definition sample_args : ShadowMapArgs :=
  mkShadowMapArgs 512%Z (const32 1.0%Q) (const32 100.0%Q)
                  (const32 0.0%Q, neg32 (const32 1.0%Q), const32 0.0%Q).

End FurtherSample.

(** * Properties *)

Local Open Scope nat_scope.

Section Properties.
Context `{Mgl32} `{SceneTypes}.
Variable fresh_texture : list GfxCall -> graphics.Texture.
Variable fresh_framebuffer : list GfxCall -> graphics.Buffer.

(** ** Counting the active lights *)

(** What the counting loop returns, for any stop test that is defined on
    every slot: the first index at or after [i] whose slot stops the count,
    or the capacity. *)
Lemma count_until_first_stop stop slots n i :
  i + n = MaxForwardLights ->
  length slots = MaxForwardLights ->
  (forall j a, slots !! j = Some a -> is_Some (stop a)) ->
  exists k,
    count_until stop slots n i = Some k /\
    i <= k <= MaxForwardLights /\
    (forall j a, i <= j < k -> slots !! j = Some a -> stop a = Some false) /\
    (k < MaxForwardLights -> exists a, slots !! k = Some a /\ stop a = Some true).
Proof.
  revert i. induction n as [|n IH]; intros i Hi Hlen Hdef; simpl.
  - exists MaxForwardLights. split_and!; [done|lia|lia|intros; lia|intros; lia].
  - destruct (lookup_lt_is_Some_2 slots i) as [a Ha]; [lia|].
    rewrite Ha. destruct (Hdef _ _ Ha) as [b Hb]. rewrite Hb.
    destruct b.
    + exists i. split_and!; [done|lia|lia|intros; lia|by eauto].
    + destruct (IH (S i)) as (k & Hk & Hrange & Hbefore & Hat); [lia|done|done|].
      exists k. split_and!; [done|lia|lia| |done].
      intros j a' Hj Ha'. destruct (decide (j = i)) as [->|Hne].
      * congruence.
      * apply (Hbefore j); [lia|done].
Qed.

(** The two stop tests differ only in that the shadow test may stop
    earlier. *)
Lemma count_until_le stop1 stop2 slots n i k1 k2 :
  (forall a, stop1 a = Some false -> stop2 a = Some false) ->
  count_until stop1 slots n i = Some k1 ->
  count_until stop2 slots n i = Some k2 ->
  i + n = MaxForwardLights ->
  k1 <= k2.
Proof.
  intros Himp. revert i. induction n as [|n IH]; intros i; simpl.
  - intros; simplify_eq. lia.
  - destruct (slots !! i) as [a|]; [|done].
    destruct (stop1 a) as [[|]|] eqn:H1; [| |done].
    + destruct (stop2 a) as [[|]|]; [| |done]; intros Hk1 Hk2 Hi.
      * simplify_eq. lia.
      * simplify_eq.
        assert (forall m j k, count_until stop2 slots m j = Some k ->
                              j + m = MaxForwardLights -> j <= k) as Hlow.
        { clear. induction m as [|m IHm]; intros j k; simpl.
          - intros; simplify_eq. lia.
          - destruct (slots !! j) as [a|]; [|done].
            destruct (stop2 a) as [[|]|]; [| |done]; intros Hk Hj.
            + simplify_eq. lia.
            + apply IHm in Hk; lia. }
        apply Hlow in Hk2; lia.
    + rewrite (Himp _ H1). intros Hk1 Hk2 Hi. apply (IH (S i)); [done|done|lia].
Qed.

Lemma GetActiveLightCount_scan (fr : ForwardRenderer) :
  length (ActiveLights fr) = MaxForwardLights ->
  exists n,
    GetActiveLightCount fr = Some n /\
    n <= MaxForwardLights /\
    (forall i, i < n -> exists l, ActiveLights fr !! i = Some (Some l)) /\
    (n < MaxForwardLights -> ActiveLights fr !! n = Some None).
Proof.
  intros Hlen.
  destruct (count_until_first_stop
              (fun a => Some (bool_decide (a = None)))
              (ActiveLights fr) MaxForwardLights 0)
    as (n & Hn & Hrange & Hbefore & Hat); [done|done|by eauto|].
  exists n. split_and!; [exact Hn|lia| |].
  - intros i Hi.
    destruct (lookup_lt_is_Some_2 (ActiveLights fr) i) as [a Ha]; [lia|].
    specialize (Hbefore i a ltac:(lia) Ha).
    destruct a as [l|]; [by eauto|]. by rewrite bool_decide_eq_true_2 in Hbefore.
  - intros Hlt. destruct (Hat Hlt) as (a & Ha & Hstop).
    destruct a as [l|]; [|done]. by rewrite bool_decide_eq_false_2 in Hstop.
Qed.

Lemma GetActiveShadowLightCount_scan
    (fr : ForwardRenderer) (hp : gmap LightPtr Light.t) :
  slots_ok fr hp ->
  exists n,
    GetActiveShadowLightCount fr hp = Some n /\
    n <= MaxForwardLights /\
    (forall i, i < n ->
       exists l L shady, ActiveLights fr !! i = Some (Some l) /\
                         hp !! l = Some L /\ Light.ShadowMap L = Some shady) /\
    (n < MaxForwardLights ->
       ActiveLights fr !! n = Some None \/
       exists l L, ActiveLights fr !! n = Some (Some l) /\
                   hp !! l = Some L /\ Light.ShadowMap L = None).
Proof.
  intros [Hlen Halloc].
  set (stop := fun a : option LightPtr =>
           match a with
           | None => Some true
           | Some l => match hp !! l with
                       | None => None
                       | Some L => Some (bool_decide (Light.ShadowMap L = None))
                       end
           end).
  destruct (count_until_first_stop stop (ActiveLights fr) MaxForwardLights 0)
    as (n & Hn & Hrange & Hbefore & Hat); [done|done| |].
  { intros j [l|] Ha; simpl; [|by eauto].
    destruct (Halloc _ _ Ha) as [L HL]. rewrite HL. by eauto. }
  exists n. split_and!; [exact Hn|lia| |].
  - intros i Hi.
    destruct (lookup_lt_is_Some_2 (ActiveLights fr) i) as [a Ha]; [lia|].
    specialize (Hbefore i a ltac:(lia) Ha).
    destruct a as [l|]; simpl in Hbefore; [|done].
    destruct (hp !! l) as [L|] eqn:HL; [|done].
    destruct (Light.ShadowMap L) as [shady|] eqn:Hsm.
    + by exists l, L, shady.
    + by rewrite bool_decide_eq_true_2 in Hbefore.
  - intros Hlt. destruct (Hat Hlt) as (a & Ha & Hstop).
    destruct a as [l|]; simpl in Hstop; [|by left].
    destruct (hp !! l) as [L|] eqn:HL; [|done].
    destruct (Light.ShadowMap L) as [shady|] eqn:Hsm.
    + by rewrite bool_decide_eq_false_2 in Hstop.
    + right. by exists l, L.
Qed.

(** C5. For a four-slot [ActiveLights] array, [GetActiveLightCount] returns
    the index of the first nil slot, or the capacity 4 when no slot is nil:
    every slot before the returned index holds a light, and the slot at the
    returned index, if there is one, is nil.  It returns 0 for the all-nil
    array, 2 for [[L1; L2; nil; nil]] and 1 for [[L1; nil; L3; nil]]. *)
Theorem GetActiveLightCount_first_nil (fr : ForwardRenderer) :
  length (ActiveLights fr) = MaxForwardLights ->
  (exists n,
     GetActiveLightCount fr = Some n /\
     n <= MaxForwardLights /\
     (forall i, i < n -> exists l, ActiveLights fr !! i = Some (Some l)) /\
     (n < MaxForwardLights -> ActiveLights fr !! n = Some None)) /\
  GetActiveLightCount (set_ActiveLights [None; None; None; None] fr) = Some 0 /\
  (forall L1 L2,
     GetActiveLightCount (set_ActiveLights [Some L1; Some L2; None; None] fr)
     = Some 2) /\
  (forall L1 L3,
     GetActiveLightCount (set_ActiveLights [Some L1; None; Some L3; None] fr)
     = Some 1).
Proof.
  intros Hlen. split; [by apply GetActiveLightCount_scan|]. by split_and!.
Qed.

(** C6. For a four-slot [ActiveLights] array whose pointers all have a
    light behind them, [GetActiveShadowLightCount] returns the index of the
    first slot that is nil or holds a light whose [ShadowMap] is nil, or the
    capacity 4 when there is no such slot.  It returns 0 when slot 0 holds a
    light without a shadow map, whatever the other slots hold. *)
Theorem GetActiveShadowLightCount_first_unshadowed
    (fr : ForwardRenderer) (hp : gmap LightPtr Light.t) :
  slots_ok fr hp ->
  (exists n,
     GetActiveShadowLightCount fr hp = Some n /\
     n <= MaxForwardLights /\
     (forall i, i < n ->
        exists l L shady, ActiveLights fr !! i = Some (Some l) /\
                          hp !! l = Some L /\ Light.ShadowMap L = Some shady) /\
     (n < MaxForwardLights ->
        ActiveLights fr !! n = Some None \/
        exists l L, ActiveLights fr !! n = Some (Some l) /\
                    hp !! l = Some L /\ Light.ShadowMap L = None)) /\
  (forall l0 L0 a1 a2 a3,
     hp !! l0 = Some L0 -> Light.ShadowMap L0 = None ->
     GetActiveShadowLightCount (set_ActiveLights [Some l0; a1; a2; a3] fr) hp
     = Some 0).
Proof.
  intros Hok. split; [by apply GetActiveShadowLightCount_scan|].
  intros l0 L0 a1 a2 a3 HL0 Hsm.
  unfold GetActiveShadowLightCount. simpl. by rewrite HL0, Hsm.
Qed.

(** C10. For a four-slot [ActiveLights] array whose pointers all have a
    light behind them, both counts are defined and
    [GetActiveShadowLightCount] is at most [GetActiveLightCount]. *)
Theorem GetActiveShadowLightCount_le_GetActiveLightCount
    (fr : ForwardRenderer) (hp : gmap LightPtr Light.t) :
  slots_ok fr hp ->
  exists shadowed active,
    GetActiveShadowLightCount fr hp = Some shadowed /\
    GetActiveLightCount fr = Some active /\
    shadowed <= active.
Proof.
  intros Hok.
  destruct (GetActiveShadowLightCount_scan fr hp Hok) as (n & Hn & _).
  destruct (GetActiveLightCount_scan fr (proj1 Hok)) as (m & Hm & _).
  exists n, m. split_and!; [done|done|].
  refine (count_until_le _ _ _ _ _ _ _ _ Hn Hm _); [|done].
  intros [l|]; [|done].
  destruct (hp !! l) as [L|]; [|done]. intros _. by rewrite bool_decide_eq_false_2.
Qed.

(** ** Initialisation *)

(** C7, as the code has it. For every width and height, [Init] stores the
    given dimensions, so that [GetResolution] returns them, touches neither
    the lights nor the device, and returns the nil error: no dimension,
    positive or not, is rejected. *)
Theorem Init_stores_and_returns_nil (w : World) (width height : Z) :
  exists w',
    Init width height w = Done None w' /\
    GetResolution w' = Done (width, height) w' /\
    heap w' = heap w /\ calls w' = calls w /\
    ActiveLights (renderer w') = ActiveLights (renderer w).
Proof. eexists. split_and!; reflexivity. Qed.

(** ** Shadow matrices *)

(** What the bias matrix does to a clip-space point with [w = 1], entry by
    entry and without rounding: every coordinate [c] becomes [(c + 1) / 2]. *)
Lemma shadowBiasMat_halves (x y z : Q) :
  match apply_exact shadowBiasMat_entries (x, y, z, 1%Q) with
  | (x', y', z', w') =>
      (x' == (x + 1) / 2 /\ y' == (y + 1) / 2 /\ z' == (z + 1) / 2 /\ w' == 1)%Q
  end.
Proof. cbn. split_and!; field. Qed.

Lemma halved_in_unit (c c' : Q) :
  (c' == (c + 1) / 2 -> -1 <= c <= 1 -> 0 <= c' <= 1)%Q.
Proof.
  intros -> [Hlo Hhi]. split.
  - apply Qle_shift_div_l; [reflexivity|]. rewrite Qmult_0_l.
    apply (Qplus_le_l _ _ (-1)%Q). ring_simplify. exact Hlo.
  - apply Qle_shift_div_r; [reflexivity|].
    apply (Qplus_le_l _ _ (-1)%Q). ring_simplify. exact Hhi.
Qed.

(** C2. For a light behind [l], [UpdateShadowMapData] changes nothing when
    the light's [ShadowMap] is nil.  Otherwise it succeeds, leaves renderer
    and device alone and replaces the shadow map by one whose [View] is the
    look-at matrix from the light's position toward position plus shadow
    direction with the map's up vector, whose [ViewProjMatrix] is
    [Projection] times that [View], and whose [BiasedMatrix] is
    [shadowBiasMat] times that [ViewProjMatrix]; the other fields keep
    their values.  The entries of [shadowBiasMat], applied without rounding
    to a point [(x, y, z, 1)] with coordinates in [[-1,1]], give a point
    with coordinates in [[0,1]] and last coordinate 1. *)
Theorem UpdateShadowMapData_recomputes (w : World) (l : LightPtr) (L : Light.t) :
  heap w !! l = Some L ->
  (Light.ShadowMap L = None -> UpdateShadowMapData l w = Done tt w) /\
  (forall shady, Light.ShadowMap L = Some shady ->
     exists shady',
       UpdateShadowMapData l w
       = Done tt (set_heap (<[l := Light.set_ShadowMap (Some shady') L]> (heap w)) w) /\
       ShadowMap.View shady'
       = LookAtV (Light.Position L)
                 (Vec3_Add (Light.Position L) (ShadowMap.Direction shady))
                 (ShadowMap.Up shady) /\
       ShadowMap.ViewProjMatrix shady'
       = Mat4_Mul4 (ShadowMap.Projection shady) (ShadowMap.View shady') /\
       ShadowMap.BiasedMatrix shady'
       = Mat4_Mul4 shadowBiasMat (ShadowMap.ViewProjMatrix shady') /\
       ShadowMap.Texture shady' = ShadowMap.Texture shady /\
       ShadowMap.TextureSize shady' = ShadowMap.TextureSize shady /\
       ShadowMap.Direction shady' = ShadowMap.Direction shady /\
       ShadowMap.Near shady' = ShadowMap.Near shady /\
       ShadowMap.Far shady' = ShadowMap.Far shady /\
       ShadowMap.Up shady' = ShadowMap.Up shady /\
       ShadowMap.Projection shady' = ShadowMap.Projection shady) /\
  shadowBiasMat = map const32 shadowBiasMat_entries /\
  (forall x y z : Q,
     (-1 <= x <= 1)%Q -> (-1 <= y <= 1)%Q -> (-1 <= z <= 1)%Q ->
     match apply_exact shadowBiasMat_entries (x, y, z, 1%Q) with
     | (x', y', z', w') =>
         (0 <= x' <= 1 /\ 0 <= y' <= 1 /\ 0 <= z' <= 1 /\ w' == 1)%Q
     end).
Proof.
  intros Hl. split_and!.
  - intros Hnil. unfold UpdateShadowMapData, bind, load. by rewrite Hl, Hnil.
  - intros shady Hsm. exists (recompute (Light.Position L) shady).
    split_and!; try reflexivity.
    unfold UpdateShadowMapData, bind, load. by rewrite Hl, Hsm.
  - reflexivity.
  - intros x y z Hx Hy Hz.
    pose proof (shadowBiasMat_halves x y z) as Hhalf.
    destruct (apply_exact shadowBiasMat_entries (x, y, z, 1%Q))
      as [[[x' y'] z'] w'].
    destruct Hhalf as (Hx' & Hy' & Hz' & Hw').
    split_and!; try exact Hw'; eapply halved_in_unit; eauto.
Qed.

(** Running [UpdateShadowMapData] a second time, with nothing changed in
    between, leaves the world as the first run left it. *)
Lemma UpdateShadowMapData_twice (w w1 : World) (l : LightPtr) :
  UpdateShadowMapData l w = Done tt w1 ->
  UpdateShadowMapData l w1 = Done tt w1.
Proof.
  unfold UpdateShadowMapData, bind, load, store, ret.
  destruct (heap w !! l) as [L|] eqn:Hl; [|done].
  destruct (Light.ShadowMap L) as [shady|] eqn:Hsm.
  - intros [= <-]. simpl. rewrite lookup_insert_eq. simpl.
    unfold set_heap. simpl. by rewrite insert_insert_eq.
  - intros [= <-]. by rewrite Hl, Hsm.
Qed.

(** ** Enabling a light without a shadow map *)

(** C8, as the code has it.  For a light behind [l] whose [ShadowMap] is
    nil, [EnableShadowMappingLight] checks nothing up front: it records [l]
    as the renderer's current shadow-pass light and then panics (the nil
    [ShadowMap] is dereferenced for its texture) before any device call, so
    the call log and the lights are as before and only the renderer's
    current shadow-pass light has changed. *)
Theorem EnableShadowMappingLight_nil_ShadowMap_panics
    (w : World) (l : LightPtr) (L : Light.t) :
  heap w !! l = Some L ->
  Light.ShadowMap L = None ->
  exists w',
    EnableShadowMappingLight l w = Panicked w' /\
    calls w' = calls w /\
    heap w' = heap w /\
    renderer w' = set_currentShadowPassLight (Some l) (renderer w).
Proof.
  intros Hl Hnil.
  exists (set_renderer (set_currentShadowPassLight (Some l) (renderer w)) w).
  split_and!; [|reflexivity..].
  unfold EnableShadowMappingLight, UpdateShadowMapData, shadow_map_of,
    bind, load, get_renderer, put_renderer. simpl.
  rewrite Hl, Hnil. simpl. rewrite Hl, Hnil. reflexivity.
Qed.

(** ** Replacing a shadow map *)

Lemma drop_issued (cs delta : list GfxCall) : drop (length cs) (cs ++ delta) = delta.
Proof. by rewrite drop_app_length. Qed.

Lemma deleted_app (cs cs' : list GfxCall) :
  deleted (cs ++ cs') = deleted cs ++ deleted cs'.
Proof.
  induction cs as [|c cs IH]; [done|]. destruct c; simpl; by rewrite IH.
Qed.

Lemma generated_app (cs cs' : list GfxCall) :
  generated (cs ++ cs') = generated cs ++ generated cs'.
Proof.
  induction cs as [|c cs IH]; [done|]. destruct c; simpl; by rewrite IH.
Qed.

(** One run of [CreateShadowMap] on a light behind [l]: it succeeds; it
    first deletes the texture of the shadow map the light owns, if any, then
    generates a texture, then configures it; the light ends up owning a
    shadow map with the generated texture. *)
Lemma CreateShadowMap_run (w : World) (l : LightPtr) (L : Light.t)
    (textureSize : Z) (near far : float32) (dir : Vec3) :
  heap w !! l = Some L ->
  exists tex rest shady',
    CreateShadowMap fresh_texture l textureSize near far dir w
    = Done tt (mkWorld (renderer w)
                       (<[l := Light.set_ShadowMap (Some shady') L]> (heap w))
                       (calls w
                        ++ match Light.ShadowMap L with
                           | Some old => [DeleteTexture (ShadowMap.Texture old)]
                           | None => []
                           end
                        ++ GenTexture tex :: rest)) /\
    ShadowMap.Texture shady' = tex /\
    deleted rest = [] /\ generated rest = [].
Proof.
  intros Hl.
  unfold CreateShadowMap, ShadowMap_Destroy, gfx_GenTexture, bind, load, store, gfx, ret.
  rewrite Hl.
  destruct (Light.ShadowMap L) as [old|]; cbn;
    do 3 eexists;
    (split; [rewrite <- ?app_assoc; cbn; reflexivity | split_and!; reflexivity]).
Qed.

(** C3. For a light behind [l] that owns a shadow map, [CreateShadowMap]
    succeeds and the calls it adds to the log start with one
    [DeleteTexture] of the old texture, followed by the [GenTexture] of the
    replacement, and hold no other [DeleteTexture]; the light then owns the
    generated texture.  A second [CreateShadowMap] on the same light
    releases exactly the texture the first one generated, once, and
    generates exactly one.  For a light that owned no shadow map, two
    consecutive calls together release exactly one texture, the one the
    first call generated. *)
Theorem CreateShadowMap_releases_previous_texture
    (w : World) (l : LightPtr) (L : Light.t)
    (textureSize : Z) (near far : float32) (dir : Vec3)
    (textureSize2 : Z) (near2 far2 : float32) (dir2 : Vec3) :
  heap w !! l = Some L ->
  let first := CreateShadowMap fresh_texture l textureSize near far dir in
  let second := CreateShadowMap fresh_texture l textureSize2 near2 far2 dir2 in
  (forall old, Light.ShadowMap L = Some old ->
     exists w' tex rest L' shady',
       first w = Done tt w' /\
       issued first w
       = DeleteTexture (ShadowMap.Texture old) :: GenTexture tex :: rest /\
       deleted (issued first w) = [ShadowMap.Texture old] /\
       generated (issued first w) = [tex] /\
       heap w' !! l = Some L' /\ Light.ShadowMap L' = Some shady' /\
       ShadowMap.Texture shady' = tex) /\
  (exists w1 w2 tex1 tex2 L2 shady2,
     first w = Done tt w1 /\ second w1 = Done tt w2 /\
     generated (issued first w) = [tex1] /\
     deleted (issued second w1) = [tex1] /\
     generated (issued second w1) = [tex2] /\
     heap w2 !! l = Some L2 /\ Light.ShadowMap L2 = Some shady2 /\
     ShadowMap.Texture shady2 = tex2 /\
     (Light.ShadowMap L = None ->
        deleted (issued (bind first (fun _ => second)) w) = [tex1] /\
        generated (issued (bind first (fun _ => second)) w) = [tex1; tex2])).
Proof.
  intros Hl first second. subst first second.
  destruct (CreateShadowMap_run w l L textureSize near far dir Hl)
    as (tex1 & rest1 & shady1 & Hrun1 & Htex1 & Hdel1 & Hgen1).
  set (w1 := mkWorld (renderer w)
               (<[l := Light.set_ShadowMap (Some shady1) L]> (heap w))
               (calls w ++ match Light.ShadowMap L with
                           | Some old => [DeleteTexture (ShadowMap.Texture old)]
                           | None => []
                           end ++ GenTexture tex1 :: rest1)) in *.
  assert (heap w1 !! l = Some (Light.set_ShadowMap (Some shady1) L)) as Hl1
    by apply lookup_insert_eq.
  destruct (CreateShadowMap_run w1 l _ textureSize2 near2 far2 dir2 Hl1)
    as (tex2 & rest2 & shady2 & Hrun2 & Htex2 & Hdel2 & Hgen2).
  simpl in Hrun2. rewrite Htex1 in Hrun2.
  split.
  - intros old Hold. exists w1, tex1, rest1, (Light.set_ShadowMap (Some shady1) L), shady1.
    unfold issued. rewrite Hrun1. subst w1. rewrite Hold in *. simpl.
    rewrite drop_issued. simpl. rewrite Hdel1, Hgen1. by split_and!.
  - exists w1, (mkWorld (renderer w1)
                  (<[l := Light.set_ShadowMap (Some shady2)
                            (Light.set_ShadowMap (Some shady1) L)]> (heap w1))
                  (calls w1 ++ DeleteTexture tex1 :: GenTexture tex2 :: rest2)),
      tex1, tex2,
      (Light.set_ShadowMap (Some shady2) (Light.set_ShadowMap (Some shady1) L)),
      shady2.
    split; [exact Hrun1|]. split; [exact Hrun2|].
    unfold issued, bind. rewrite Hrun1, Hrun2. simpl.
    rewrite !drop_issued.
    split_and!.
    + rewrite generated_app. simpl. rewrite Hgen1.
      by destruct (Light.ShadowMap L).
    + simpl. by rewrite Hdel2.
    + simpl. by rewrite Hgen2.
    + apply lookup_insert_eq.
    + reflexivity.
    + exact Htex2.
    + intros Hnone. rewrite Hnone. simpl.
      rewrite <- app_assoc, drop_issued. simpl.
      rewrite deleted_app, generated_app. simpl.
      by rewrite Hdel1, Hdel2, Hgen1, Hgen2.
Qed.

(** ** Drawing a scene tree *)

(** Induction on a scene tree, with the property known of every child. *)
Lemma Renderable_tree_ind (P : Renderable -> Prop) :
  (forall isVisible isGroup children core,
     Forall P children -> P (mkRenderable isVisible isGroup children core)) ->
  forall r, P r.
Proof.
  intros step. fix IH 1. intros [isVisible isGroup children core].
  apply step. induction children as [|child children IHchildren].
  - constructor.
  - constructor; [apply IH | exact IHchildren].
Qed.

Lemma log_only_ret : log_only (ret tt).
Proof. exists []. intros [fr hp cs]. unfold ret, set_calls. simpl. by rewrite app_nil_r. Qed.

Lemma log_only_gfx (c : GfxCall) : log_only (gfx c).
Proof. by exists [c]. Qed.

Lemma log_only_bind (m k : M unit) :
  log_only m -> log_only k -> log_only (bind m (fun _ => k)).
Proof.
  intros [cs Hm] [cs' Hk]. exists (cs ++ cs'). intros w.
  unfold bind. rewrite Hm, Hk. unfold set_calls. simpl. by rewrite app_assoc.
Qed.

Lemma log_only_range {A} (f : A -> M unit) (xs : list A) :
  Forall (fun x => log_only (f x)) xs -> log_only (range f xs).
Proof.
  induction 1 as [|x xs Hx _ IH]; simpl.
  - apply log_only_ret.
  - by apply log_only_bind.
Qed.

(** The calls a log-only computation adds are those it emits in the empty
    world. *)
Lemma log_only_emitted (m : M unit) :
  log_only m -> forall w, m w = Done tt (set_calls (calls w ++ emitted m) w).
Proof.
  intros [cs Hm] w. unfold emitted. by rewrite (Hm empty_world), Hm.
Qed.

Lemma emitted_bind (m k : M unit) :
  log_only m -> log_only k ->
  emitted (bind m (fun _ => k)) = emitted m ++ emitted k.
Proof.
  intros Hm Hk. unfold emitted at 1, bind.
  rewrite (log_only_emitted m Hm), (log_only_emitted k Hk). done.
Qed.

Lemma emitted_range {A} (f : A -> M unit) (xs : list A) :
  Forall (fun x => log_only (f x)) xs ->
  emitted (range f xs) = flat_map (fun x => emitted (f x)) xs.
Proof.
  induction 1 as [|x xs Hx Hxs IH]; [done|].
  simpl. rewrite emitted_bind; [by rewrite IH|done|by apply log_only_range].
Qed.

(** Any function of the shape shared by the three entry points is a pruned
    traversal, [leaf] being what it does at a visible leaf. *)
Lemma pruned_traversal_intro (T leaf : Renderable -> M unit)
    (leaf_calls : Renderable -> list GfxCall) (mode : graphics.Enum) :
  (forall r, T r = if negb (IsVisible r) then ret tt
                   else if IsGroup r then range T (Children r)
                   else leaf r) ->
  (forall r w, leaf r w = Done tt (set_calls (calls w ++ leaf_calls r) w)) ->
  (forall r, List.filter is_DrawCall (leaf_calls r) = [DrawCall r mode]) ->
  pruned_traversal T leaf_calls mode.
Proof.
  intros Hshape Hleaf Hone.
  assert (forall r, log_only (T r)) as Hlog.
  { induction r as [isVisible isGroup children core IH] using Renderable_tree_ind.
    rewrite Hshape. simpl. destruct isVisible; simpl; [|apply log_only_ret].
    destruct isGroup; [by apply log_only_range|].
    eexists. apply Hleaf. }
  assert (forall children core,
            emitted (T (mkRenderable true false children core))
            = leaf_calls (mkRenderable true false children core)) as Hemit.
  { intros children core. rewrite Hshape. simpl.
    unfold emitted. by rewrite Hleaf. }
  unfold pruned_traversal. split_and!.
  - intros r w. by apply log_only_emitted.
  - intros isGroup children core. by rewrite Hshape.
  - intros children core. rewrite Hshape. simpl. split; [done|].
    apply emitted_range. by apply Forall_forall.
  - intros children core. cbv zeta. rewrite Hemit.
    unfold draw_call_count. by rewrite Hone.
  - intros coreA coreB visibleB coreRoot coreInner. cbv zeta.
    set (A := mkRenderable true false [] coreA).
    set (B := mkRenderable visibleB false [] coreB).
    set (tree := mkRenderable true true [A; mkRenderable false true [B] coreInner] coreRoot).
    assert (emitted (T tree) = leaf_calls A) as ->.
    { subst tree. rewrite (Hshape (mkRenderable true true _ _)). simpl.
      rewrite emitted_bind; [|done|].
      - rewrite (Hshape (mkRenderable false true _ _)). simpl.
        rewrite emitted_bind; [|apply log_only_ret..].
        subst A. rewrite Hemit. unfold emitted. simpl. by rewrite !app_nil_r.
      - apply log_only_bind; [done|apply log_only_ret]. }
    unfold draw_call_count. by rewrite Hone.
Qed.

Lemma bindAndDraw_run r shader binder perspective view mode w :
  bindAndDraw r shader binder perspective view mode w
  = Done tt (set_calls (calls w ++ [BindShader shader;
                                    InvokeBinder binder r shader perspective view;
                                    DrawCall r mode]) w).
Proof.
  unfold bindAndDraw, bind, gfx, set_calls. simpl. by rewrite <- !app_assoc.
Qed.

Lemma DrawRenderable_pruned binder perspective view :
  pruned_traversal
    (fun r => DrawRenderable r binder perspective view)
    (fun r => [BindShader (Shader (Core r));
               InvokeBinder binder r (Shader (Core r)) perspective view;
               DrawCall r graphics.TRIANGLES])
    graphics.TRIANGLES.
Proof.
  apply (pruned_traversal_intro _
           (fun r => bindAndDraw r (Shader (Core r)) binder perspective view
                       graphics.TRIANGLES)); [by intros []| |done].
  intros r w. apply bindAndDraw_run.
Qed.

Lemma DrawRenderableWithShader_pruned shader binder perspective view :
  pruned_traversal
    (fun r => DrawRenderableWithShader r shader binder perspective view)
    (fun r => [BindShader shader;
               InvokeBinder binder r shader perspective view;
               DrawCall r graphics.TRIANGLES])
    graphics.TRIANGLES.
Proof.
  apply (pruned_traversal_intro _
           (fun r => bindAndDraw r shader binder perspective view
                       graphics.TRIANGLES)); [by intros []| |done].
  intros r w. apply bindAndDraw_run.
Qed.

Lemma DrawLines_pruned shader binder perspective view :
  pruned_traversal
    (fun r => DrawLines r shader binder perspective view)
    (fun r => [BindShader shader;
               InvokeBinder binder r shader perspective view;
               DrawCall r graphics.LINES])
    graphics.LINES.
Proof.
  apply (pruned_traversal_intro _
           (fun r => bindAndDraw r shader binder perspective view
                       graphics.LINES)); [by intros []| |done].
  intros r w. apply bindAndDraw_run.
Qed.

(** C1. Each of [DrawRenderable], [DrawRenderableWithShader] and
    [DrawLines] is a pruned traversal of the scene tree: it issues no call
    at all for a node whose visible flag is false, whatever the node's
    children are; for a visible group it is the loop over the children in
    list order with the same parameters, and issues what they issue and
    nothing of its own; for a visible leaf it binds the shader, invokes the
    binder and issues exactly one draw call (triangles, or lines for
    [DrawLines]); the tree
    [Group{visible}[Leaf A{visible}, Group{invisible}[Leaf B]]] issues
    exactly one draw call, for [A], and an invisible root issues none. *)
Theorem draw_traversals_prune_invisible_subtrees
    (shader : RenderShader) (binder : RenderBinder) (perspective view : Mat4) :
  pruned_traversal
    (fun r => DrawRenderable r binder perspective view)
    (fun r => [BindShader (Shader (Core r));
               InvokeBinder binder r (Shader (Core r)) perspective view;
               DrawCall r graphics.TRIANGLES])
    graphics.TRIANGLES /\
  pruned_traversal
    (fun r => DrawRenderableWithShader r shader binder perspective view)
    (fun r => [BindShader shader;
               InvokeBinder binder r shader perspective view;
               DrawCall r graphics.TRIANGLES])
    graphics.TRIANGLES /\
  pruned_traversal
    (fun r => DrawLines r shader binder perspective view)
    (fun r => [BindShader shader;
               InvokeBinder binder r shader perspective view;
               DrawCall r graphics.LINES])
    graphics.LINES.
Proof.
  split_and!.
  - apply DrawRenderable_pruned.
  - apply DrawRenderableWithShader_pruned.
  - apply DrawLines_pruned.
Qed.

(** ** The shadow pass *)

Lemma depth_attachments_app (cs cs' : list GfxCall) :
  depth_attachments (cs ++ cs') = depth_attachments cs ++ depth_attachments cs'.
Proof.
  induction cs as [|c cs IH]; [done|].
  destruct c; simpl; try exact IH.
  repeat case_match; simpl; by rewrite ?IH.
Qed.

Lemma depth_attachments_draw_steps (cs : list GfxCall) :
  Forall (fun c => is_draw_step c = true) cs -> depth_attachments cs = [].
Proof.
  induction 1 as [|c cs Hc _ IH]; [done|]. by destruct c.
Qed.

(** A pruned traversal whose leaves make only draw steps makes only draw
    steps. *)
Lemma pruned_traversal_draw_steps T leaf_calls mode :
  pruned_traversal T leaf_calls mode ->
  (forall r, Forall (fun c => is_draw_step c = true) (leaf_calls r)) ->
  forall r, Forall (fun c => is_draw_step c = true) (emitted (T r)).
Proof.
  intros (_ & Hinvisible & Hgroup & Hleaf & _) Hsteps.
  induction r as [isVisible isGroup children core IH] using Renderable_tree_ind.
  destruct isVisible; [|by rewrite Hinvisible].
  destruct isGroup.
  - destruct (Hgroup children core) as [_ ->].
    induction IH as [|child children Hchild _ IHchildren]; simpl; [done|].
    by apply Forall_app.
  - destruct (Hleaf children core) as [-> _]. apply Hsteps.
Qed.

(** A draw request never panics and adds only draw steps to the log. *)
Lemma draw_run (q : DrawRequest) :
  (forall w, draw q w = Done tt (set_calls (calls w ++ emitted (draw q)) w)) /\
  Forall (fun c => is_draw_step c = true) (emitted (draw q)).
Proof.
  destruct q as [r binder perspective view | r shader binder perspective view
                | r shader binder perspective view]; simpl.
  - pose proof (DrawRenderable_pruned binder perspective view) as Hp.
    split; [intros w; apply (proj1 Hp)|].
    apply (pruned_traversal_draw_steps _ _ _ Hp). intros r'. by repeat constructor.
  - pose proof (DrawRenderableWithShader_pruned shader binder perspective view) as Hp.
    split; [intros w; apply (proj1 Hp)|].
    apply (pruned_traversal_draw_steps _ _ _ Hp). intros r'. by repeat constructor.
  - pose proof (DrawLines_pruned shader binder perspective view) as Hp.
    split; [intros w; apply (proj1 Hp)|].
    apply (pruned_traversal_draw_steps _ _ _ Hp). intros r'. by repeat constructor.
Qed.

Lemma draws_run (qs : list DrawRequest) :
  exists cs, depth_attachments cs = [] /\
             forall w, range draw qs w = Done tt (set_calls (calls w ++ cs) w).
Proof.
  induction qs as [|q qs (cs & Hcs & Hrun)]; simpl.
  - exists []. split; [done|]. intros [fr hp cs]. unfold ret, set_calls. simpl.
    by rewrite app_nil_r.
  - destruct (draw_run q) as [Hq Hsteps].
    exists (emitted (draw q) ++ cs). split.
    + by rewrite depth_attachments_app, (depth_attachments_draw_steps _ Hsteps), Hcs.
    + intros w. unfold bind. rewrite Hq, Hrun. unfold set_calls. simpl.
      by rewrite app_assoc.
Qed.

(** One run of [EnableShadowMappingLight] on a light that casts shadows. *)
Lemma EnableShadowMappingLight_run (w : World) (l : LightPtr) (L : Light.t)
    (shady : ShadowMap.t) :
  heap w !! l = Some L -> Light.ShadowMap L = Some shady ->
  EnableShadowMappingLight l w
  = Done tt (mkWorld
               (set_currentShadowPassLight (Some l) (renderer w))
               (<[l := Light.set_ShadowMap
                         (Some (recompute (Light.Position L) shady)) L]> (heap w))
               (calls w ++
                [FramebufferTexture2D graphics.FRAMEBUFFER graphics.DEPTH_ATTACHMENT
                   graphics.TEXTURE_2D (ShadowMap.Texture shady) 0;
                 Clear graphics.DEPTH_BUFFER_BIT;
                 Viewport 0 0 (ShadowMap.TextureSize shady)
                              (ShadowMap.TextureSize shady)])).
Proof.
  intros Hl Hsm.
  unfold EnableShadowMappingLight, UpdateShadowMapData, shadow_map_of,
    bind, load, store, gfx, get_renderer, put_renderer, ret. simpl.
  rewrite Hl, Hsm. simpl. rewrite lookup_insert_eq. simpl.
  rewrite lookup_insert_eq. simpl.
  unfold set_calls. simpl. by rewrite <- !app_assoc.
Qed.

(** Recomputing the matrices of one light leaves every light's texture as
    it was. *)
Lemma texture_after_recompute (hp : gmap LightPtr Light.t)
    (l l' : LightPtr) (L L' : Light.t) (shady shady' : ShadowMap.t) :
  hp !! l = Some L -> Light.ShadowMap L = Some shady ->
  hp !! l' = Some L' -> Light.ShadowMap L' = Some shady' ->
  exists L'' shady'',
    <[l := Light.set_ShadowMap (Some (recompute (Light.Position L) shady)) L]> hp !! l'
    = Some L'' /\
    Light.ShadowMap L'' = Some shady'' /\
    ShadowMap.Texture shady'' = ShadowMap.Texture shady'.
Proof.
  intros Hl Hsm Hl' Hsm'. destruct (decide (l = l')) as [<-|Hne].
  - rewrite lookup_insert_eq. do 2 eexists. split_and!; [done|done|].
    simpl. congruence.
  - rewrite lookup_insert_ne by done. by exists L', shady'.
Qed.

(** C4. For lights behind [l1] and [l2] that both cast shadows, whatever is
    drawn after each is enabled, the sequence [StartShadowMapping],
    [EnableShadowMappingLight l1], draws, [EnableShadowMappingLight l2],
    draws, [EndShadowMapping] runs to its end and leaves the device with
    face culling set to back faces, the polygon offset disabled and no
    framebuffer bound, and the renderer with no current shadow-pass light.
    The textures it attaches as depth target are the texture of the first
    light and then the texture of the second, and nothing else: when the two
    textures differ, each is attached exactly once. *)
Theorem shadow_pass_restores_state_and_attaches_in_order
    (w : World) (l1 l2 : LightPtr) (L1 L2 : Light.t)
    (shady1 shady2 : ShadowMap.t) (draws1 draws2 : list DrawRequest) :
  heap w !! l1 = Some L1 -> Light.ShadowMap L1 = Some shady1 ->
  heap w !! l2 = Some L2 -> Light.ShadowMap L2 = Some shady2 ->
  exists w',
    shadow_pass l1 draws1 l2 draws2 w = Done tt w' /\
    cull_face_mode (calls w') = graphics.BACK /\
    cap_enabled graphics.POLYGON_OFFSET_FILL (calls w') = false /\
    bound_framebuffer (calls w') = 0%N /\
    currentShadowPassLight (renderer w') = None /\
    depth_attachments (issued (shadow_pass l1 draws1 l2 draws2) w)
    = [ShadowMap.Texture shady1; ShadowMap.Texture shady2] /\
    (ShadowMap.Texture shady1 <> ShadowMap.Texture shady2 ->
     count_occ N.eq_dec
       (depth_attachments (issued (shadow_pass l1 draws1 l2 draws2) w))
       (ShadowMap.Texture shady1) = 1 /\
     count_occ N.eq_dec
       (depth_attachments (issued (shadow_pass l1 draws1 l2 draws2) w))
       (ShadowMap.Texture shady2) = 1).
Proof.
  intros Hl1 Hsm1 Hl2 Hsm2.
  destruct (draws_run draws1) as (cs1 & Hcs1 & Hdraws1).
  destruct (draws_run draws2) as (cs2 & Hcs2 & Hdraws2).
  destruct (texture_after_recompute (heap w) l1 l2 L1 L2 shady1 shady2)
    as (L2' & shady2' & Hl2' & Hsm2' & Htex2); [done..|].
  set (before :=
        [BindFramebuffer graphics.FRAMEBUFFER (shadowFBO (renderer w));
         Enable graphics.POLYGON_OFFSET_FILL;
         PolygonOffset (const32 4.0%Q) (const32 4.0%Q);
         Enable graphics.CULL_FACE; CullFace graphics.FRONT]
        ++ [FramebufferTexture2D graphics.FRAMEBUFFER graphics.DEPTH_ATTACHMENT
              graphics.TEXTURE_2D (ShadowMap.Texture shady1) 0;
            Clear graphics.DEPTH_BUFFER_BIT;
            Viewport 0 0 (ShadowMap.TextureSize shady1) (ShadowMap.TextureSize shady1)]
        ++ cs1
        ++ [FramebufferTexture2D graphics.FRAMEBUFFER graphics.DEPTH_ATTACHMENT
              graphics.TEXTURE_2D (ShadowMap.Texture shady2) 0;
            Clear graphics.DEPTH_BUFFER_BIT;
            Viewport 0 0 (ShadowMap.TextureSize shady2') (ShadowMap.TextureSize shady2')]
        ++ cs2).
  assert (exists w',
    shadow_pass l1 draws1 l2 draws2 w = Done tt w' /\
    currentShadowPassLight (renderer w') = None /\
    calls w' = (calls w ++ before) ++
               [CullFace graphics.BACK; Disable graphics.CULL_FACE;
                Disable graphics.POLYGON_OFFSET_FILL;
                BindFramebuffer graphics.FRAMEBUFFER 0%N])
    as (w' & Hrun & Hcurrent & Hcalls).
  { unfold shadow_pass, bind.
    unfold StartShadowMapping at 1. unfold bind, gfx, get_renderer, put_renderer. simpl.
    erewrite EnableShadowMappingLight_run; [|exact Hl1|exact Hsm1].
    rewrite Hdraws1. simpl.
    erewrite EnableShadowMappingLight_run; [|exact Hl2'|exact Hsm2'].
    rewrite Hdraws2. simpl.
    eexists. split; [reflexivity|]. split; [reflexivity|].
    simpl. rewrite Htex2. subst before.
    rewrite <- !app_assoc. reflexivity. }
  assert (depth_attachments before
          = [ShadowMap.Texture shady1; ShadowMap.Texture shady2]) as Hdepth.
  { subst before. rewrite !depth_attachments_app, Hcs1, Hcs2. reflexivity. }
  assert (depth_attachments (issued (shadow_pass l1 draws1 l2 draws2) w)
          = [ShadowMap.Texture shady1; ShadowMap.Texture shady2]) as Hissued.
  { unfold issued. rewrite Hrun. simpl. rewrite Hcalls, <- app_assoc, drop_issued.
    rewrite depth_attachments_app, Hdepth. reflexivity. }
  exists w'. split; [exact Hrun|].
  unfold cull_face_mode, cap_enabled, bound_framebuffer.
  rewrite Hcalls, !fold_left_app. simpl.
  split_and!; try done.
  intros Hdistinct. rewrite Hissued. simpl.
  destruct (N.eq_dec (ShadowMap.Texture shady1) (ShadowMap.Texture shady1)); [|done].
  destruct (N.eq_dec (ShadowMap.Texture shady2) (ShadowMap.Texture shady2)); [|done].
  destruct (N.eq_dec (ShadowMap.Texture shady2) (ShadowMap.Texture shady1)); [congruence|].
  destruct (N.eq_dec (ShadowMap.Texture shady1) (ShadowMap.Texture shady2)); [congruence|].
  done.
Qed.

End Properties.

(** * The theorems at the sample world *)

Section AtSample.
#[local] Existing Instance SymbolicMgl32.
#[local] Existing Instance NumberedScene.

Lemma GetActiveLightCount_first_nil_sample :
  length (ActiveLights sample_renderer) = MaxForwardLights /\
  exists n, GetActiveLightCount sample_renderer = Some n /\
            n <= MaxForwardLights /\
            (n < MaxForwardLights -> ActiveLights sample_renderer !! n = Some None).
Proof.
  split; [reflexivity|].
  destruct (GetActiveLightCount_first_nil sample_renderer eq_refl)
    as [(n & Hn & Hle & _ & Hnil) _].
  exists n. split; [exact Hn|]. split; [exact Hle|exact Hnil].
Defined.

Lemma sample_slots_ok : slots_ok sample_renderer sample_heap.
Proof.
  split; [reflexivity|].
  intros [|[|[|[|i]]]] l Hl; simpl in Hl; try discriminate;
    injection Hl as <-; vm_compute; eauto.
Defined.

Lemma GetActiveShadowLightCount_first_unshadowed_sample :
  slots_ok sample_renderer sample_heap /\
  exists n, GetActiveShadowLightCount sample_renderer sample_heap = Some n /\
            n <= MaxForwardLights.
Proof.
  split; [exact sample_slots_ok|].
  destruct (GetActiveShadowLightCount_first_unshadowed
              sample_renderer sample_heap sample_slots_ok)
    as [(n & Hn & Hle & _) _].
  exists n. split; [exact Hn|exact Hle].
Defined.

Lemma GetActiveShadowLightCount_le_GetActiveLightCount_sample :
  slots_ok sample_renderer sample_heap /\
  exists shadowed active,
    GetActiveShadowLightCount sample_renderer sample_heap = Some shadowed /\
    GetActiveLightCount sample_renderer = Some active /\
    shadowed <= active.
Proof.
  split; [exact sample_slots_ok|].
  exact (GetActiveShadowLightCount_le_GetActiveLightCount
           sample_renderer sample_heap sample_slots_ok).
Defined.

(** C7 as worded fails: width 0 and height -1 are not positive, and
    [Init] returns no failure for them; it returns the nil error and has
    stored both. *)
Lemma Init_accepts_nonpositive_dimensions :
  (0 <= 0)%Z /\ (-1 <= 0)%Z /\
  (~ exists e w', Init 0%Z (-1)%Z sample_world = Done (Some e) w') /\
  exists w', Init 0%Z (-1)%Z sample_world = Done None w' /\
             width (renderer w') = 0%Z /\ height (renderer w') = (-1)%Z.
Proof.
  split; [done|]. split; [done|]. split.
  - intros (e & w' & Hrun). discriminate Hrun.
  - eexists. split; [reflexivity|]. by split.
Qed.

Lemma UpdateShadowMapData_recomputes_sample :
  heap sample_world !! 1%positive = Some (sample_shadow_light 7%N) /\
  exists shady',
    UpdateShadowMapData 1%positive sample_world
    = Done tt (set_heap (<[1%positive := Light.set_ShadowMap (Some shady')
                                           (sample_shadow_light 7%N)]>
                           (heap sample_world)) sample_world) /\
    ShadowMap.View shady'
    = LookAtV (Light.Position (sample_shadow_light 7%N))
              (Vec3_Add (Light.Position (sample_shadow_light 7%N))
                        (ShadowMap.Direction (sample_shadow_map 7%N)))
              (ShadowMap.Up (sample_shadow_map 7%N)).
Proof.
  split; [reflexivity|].
  destruct (UpdateShadowMapData_recomputes
              sample_world 1%positive (sample_shadow_light 7%N) eq_refl)
    as (_ & Hsome & _).
  destruct (Hsome (sample_shadow_map 7%N) eq_refl) as (shady' & Hrun & Hview & _).
  exists shady'. split; [exact Hrun|exact Hview].
Defined.

Lemma EnableShadowMappingLight_nil_ShadowMap_panics_sample :
  heap sample_world !! 3%positive = Some sample_plain_light /\
  Light.ShadowMap sample_plain_light = None /\
  exists w',
    EnableShadowMappingLight 3%positive sample_world = Panicked w' /\
    calls w' = calls sample_world /\
    heap w' = heap sample_world /\
    renderer w' = set_currentShadowPassLight (Some 3%positive) (renderer sample_world).
Proof.
  split; [reflexivity|]. split; [reflexivity|].
  exact (EnableShadowMappingLight_nil_ShadowMap_panics
           sample_world 3%positive sample_plain_light eq_refl eq_refl).
Defined.

(** C8 as worded fails: light 3 has no shadow map, and
    [EnableShadowMappingLight] does not reject it before acting.  The renderer
    had no current shadow-pass light; when the nil [ShadowMap] is dereferenced
    the renderer has already recorded light 3 as the current one, so the
    world of the panic is not the world of the call. *)
Lemma EnableShadowMappingLight_records_light_before_panic :
  heap sample_world !! 3%positive = Some sample_plain_light /\
  Light.ShadowMap sample_plain_light = None /\
  currentShadowPassLight (renderer sample_world) = None /\
  EnableShadowMappingLight 3%positive sample_world <> Panicked sample_world /\
  exists w',
    EnableShadowMappingLight 3%positive sample_world = Panicked w' /\
    currentShadowPassLight (renderer w') = Some 3%positive.
Proof.
  split; [reflexivity|]. split; [reflexivity|]. split; [reflexivity|]. split.
  - intros Hrun.
    assert (Hpanic : EnableShadowMappingLight 3%positive sample_world
                     = Panicked (set_renderer
                         (set_currentShadowPassLight (Some 3%positive)
                            (renderer sample_world)) sample_world))
      by reflexivity.
    rewrite Hpanic in Hrun. discriminate Hrun.
  - eexists. split; reflexivity.
Qed.

Lemma CreateShadowMap_releases_previous_texture_sample :
  heap sample_world !! 1%positive = Some (sample_shadow_light 7%N) /\
  exists w' tex rest,
    CreateShadowMap counting_device 1%positive 512%Z
      (const32 1.0%Q) (const32 100.0%Q)
      (const32 0.0%Q, neg32 (const32 1.0%Q), const32 0.0%Q)
      sample_world = Done tt w' /\
    issued (CreateShadowMap counting_device 1%positive 512%Z
              (const32 1.0%Q) (const32 100.0%Q)
              (const32 0.0%Q, neg32 (const32 1.0%Q), const32 0.0%Q))
           sample_world
    = DeleteTexture 7%N :: GenTexture tex :: rest.
Proof.
  split; [reflexivity|].
  destruct (CreateShadowMap_releases_previous_texture counting_device
              sample_world 1%positive (sample_shadow_light 7%N)
              512%Z (const32 1.0%Q) (const32 100.0%Q)
              (const32 0.0%Q, neg32 (const32 1.0%Q), const32 0.0%Q)
              512%Z (const32 1.0%Q) (const32 100.0%Q)
              (const32 0.0%Q, neg32 (const32 1.0%Q), const32 0.0%Q)
              eq_refl)
    as [Hold _].
  destruct (Hold (sample_shadow_map 7%N) eq_refl)
    as (w' & tex & rest & _ & _ & Hrun & Hissued & _).
  exists w', tex, rest. split; [exact Hrun|exact Hissued].
Defined.

Lemma shadow_pass_restores_state_and_attaches_in_order_sample :
  heap sample_world !! 1%positive = Some (sample_shadow_light 7%N) /\
  heap sample_world !! 2%positive = Some (sample_shadow_light 9%N) /\
  exists w',
    shadow_pass 1%positive [ReqDrawRenderableWithShader sample_tree 5%N 6%N [] []]
                2%positive [ReqDrawRenderableWithShader sample_tree 5%N 6%N [] []]
                sample_world = Done tt w' /\
    cull_face_mode (calls w') = graphics.BACK /\
    cap_enabled graphics.POLYGON_OFFSET_FILL (calls w') = false /\
    bound_framebuffer (calls w') = 0%N /\
    currentShadowPassLight (renderer w') = None /\
    depth_attachments
      (issued (shadow_pass 1%positive
                 [ReqDrawRenderableWithShader sample_tree 5%N 6%N [] []]
                 2%positive
                 [ReqDrawRenderableWithShader sample_tree 5%N 6%N [] []])
              sample_world)
    = [7%N; 9%N].
Proof.
  split; [reflexivity|]. split; [reflexivity|].
  destruct (shadow_pass_restores_state_and_attaches_in_order
              sample_world 1%positive 2%positive
              (sample_shadow_light 7%N) (sample_shadow_light 9%N)
              (sample_shadow_map 7%N) (sample_shadow_map 9%N)
              [ReqDrawRenderableWithShader sample_tree 5%N 6%N [] []]
              [ReqDrawRenderableWithShader sample_tree 5%N 6%N [] []]
              eq_refl eq_refl eq_refl eq_refl)
    as (w' & Hrun & Hcull & Hoffset & Hfbo & Hcurrent & Hdepth & _).
  exists w'. split_and!; assumption.
Defined.

(** The sample renderer counts two active lights, both casting shadows;
    with the plain light in slot 0 no shadow light is counted. *)
Example sample_light_counts :
  GetActiveLightCount sample_renderer = Some 2 /\
  GetActiveShadowLightCount sample_renderer sample_heap = Some 2 /\
  GetActiveShadowLightCount
    (set_ActiveLights [Some 3%positive; Some 1%positive; None; None] sample_renderer)
    sample_heap = Some 0 /\
  GetActiveLightCount
    (set_ActiveLights [Some 3%positive; Some 1%positive; None; None] sample_renderer)
  = Some 2.
Proof. by vm_compute. Qed.

(** Drawing the sample tree draws its one visible leaf, once. *)
Example sample_tree_draws_one_leaf :
  emitted (DrawRenderable sample_tree 6%N [] [])
  = [BindShader 11%N;
     InvokeBinder 6%N (mkRenderable true false [] 11%N) 11%N [] [];
     DrawCall (mkRenderable true false [] 11%N) graphics.TRIANGLES] /\
  draw_call_count (emitted (DrawLines sample_tree 5%N 6%N [] [])) = 1.
Proof. by vm_compute. Qed.

(** Two shadow maps in a row on a light without one: two textures
    generated, the first of them deleted. *)
Example sample_two_shadow_maps :
  let create := CreateShadowMap counting_device 3%positive 512%Z
                  (const32 1.0%Q) (const32 100.0%Q)
                  (const32 0.0%Q, neg32 (const32 1.0%Q), const32 0.0%Q) in
  generated (issued (bind create (fun _ => create)) sample_world) = [1%N; 13%N] /\
  deleted (issued (bind create (fun _ => create)) sample_world) = [1%N].
Proof. by vm_compute. Qed.

End AtSample.

(** * Further properties *)

Section FurtherProperties.
Context `{Mgl32} `{SceneTypes}.
Variable fresh_texture : list GfxCall -> graphics.Texture.
Variable fresh_framebuffer : list GfxCall -> graphics.Buffer.

(** ** Drawing: which nodes, in which order *)

Lemma visible_leaves_visible (r : Renderable) :
  Forall (fun leaf => IsVisible leaf = true /\ IsGroup leaf = false) (visible_leaves r).
Proof.
  induction r as [isVisible isGroup children core IH] using Renderable_tree_ind.
  simpl. destruct isVisible; simpl; [|constructor].
  destruct isGroup; [|by repeat constructor].
  induction IH as [|child children Hchild _ IHchildren]; simpl; [constructor|].
  by apply Forall_app.
Qed.

(** What a pruned traversal emits is what its leaves emit, leaf by leaf. *)
Lemma pruned_traversal_leaves T leaf_calls mode :
  pruned_traversal T leaf_calls mode ->
  forall r, emitted (T r) = flat_map leaf_calls (visible_leaves r).
Proof.
  intros (_ & Hinvisible & Hgroup & Hleaf & _).
  induction r as [isVisible isGroup children core IH] using Renderable_tree_ind.
  destruct isVisible; [|by rewrite Hinvisible].
  destruct isGroup.
  - destruct (Hgroup children core) as [_ ->]. simpl.
    induction IH as [|child children Hchild _ IHchildren]; simpl; [done|].
    by rewrite flat_map_app, Hchild, IHchildren.
  - destruct (Hleaf children core) as [-> _]. simpl. by rewrite app_nil_r.
Qed.

Lemma drawn_nodes_app (cs cs' : list GfxCall) :
  drawn_nodes (cs ++ cs') = drawn_nodes cs ++ drawn_nodes cs'.
Proof.
  induction cs as [|c cs IH]; [done|]. destruct c; simpl; by rewrite ?IH.
Qed.

Lemma drawn_nodes_leaves (leaf_calls : Renderable -> list GfxCall)
    (leaves : list Renderable) :
  (forall leaf, drawn_nodes (leaf_calls leaf) = [leaf]) ->
  drawn_nodes (flat_map leaf_calls leaves) = leaves.
Proof.
  intros Hone. induction leaves as [|leaf leaves IH]; [done|].
  simpl. by rewrite drawn_nodes_app, Hone, IH.
Qed.

(** X1. Run in any world, each entry point succeeds and adds to the call
    log, for each visible leaf that has no invisible ancestor and in
    depth-first, left-to-right order, the three calls of [bindAndDraw]
    (with the leaf's own shader for [DrawRenderable], the given shader
    otherwise; triangles, or lines for [DrawLines]), and nothing else.  The
    nodes drawn are exactly [visible_leaves r], in that order. *)
Theorem draws_reach_visible_leaves_in_order
    (r : Renderable) (shader : RenderShader) (binder : RenderBinder)
    (perspective view : Mat4) (w : World) :
  DrawRenderable r binder perspective view w
  = Done tt (set_calls
               (calls w ++
                flat_map (fun leaf =>
                            [BindShader (Shader (Core leaf));
                             InvokeBinder binder leaf (Shader (Core leaf)) perspective view;
                             DrawCall leaf graphics.TRIANGLES])
                         (visible_leaves r)) w) /\
  DrawRenderableWithShader r shader binder perspective view w
  = Done tt (set_calls
               (calls w ++
                flat_map (fun leaf =>
                            [BindShader shader;
                             InvokeBinder binder leaf shader perspective view;
                             DrawCall leaf graphics.TRIANGLES])
                         (visible_leaves r)) w) /\
  DrawLines r shader binder perspective view w
  = Done tt (set_calls
               (calls w ++
                flat_map (fun leaf =>
                            [BindShader shader;
                             InvokeBinder binder leaf shader perspective view;
                             DrawCall leaf graphics.LINES])
                         (visible_leaves r)) w) /\
  drawn_nodes (issued (DrawRenderable r binder perspective view) w) = visible_leaves r /\
  drawn_nodes (issued (DrawRenderableWithShader r shader binder perspective view) w)
  = visible_leaves r /\
  drawn_nodes (issued (DrawLines r shader binder perspective view) w) = visible_leaves r.
Proof.
  pose proof (DrawRenderable_pruned binder perspective view) as H1.
  pose proof (DrawRenderableWithShader_pruned shader binder perspective view) as H2.
  pose proof (DrawLines_pruned shader binder perspective view) as H3.
  pose proof (pruned_traversal_leaves _ _ _ H1 r) as E1.
  pose proof (pruned_traversal_leaves _ _ _ H2 r) as E2.
  pose proof (pruned_traversal_leaves _ _ _ H3 r) as E3.
  pose proof (proj1 H1 r w) as R1. pose proof (proj1 H2 r w) as R2.
  pose proof (proj1 H3 r w) as R3. simpl in *.
  rewrite E1 in R1. rewrite E2 in R2. rewrite E3 in R3.
  unfold issued. rewrite R1, R2, R3. simpl. rewrite !drop_issued.
  split_and!; try done; by apply drawn_nodes_leaves.
Qed.

(** The nodes a draw request draws are the visible leaves of its tree. *)
Lemma draw_request_nodes (q : DrawRequest) (w : World) :
  exists r, drawn_nodes (issued (draw q) w) = visible_leaves r.
Proof.
  destruct q as [r binder perspective view | r shader binder perspective view
                | r shader binder perspective view]; exists r; simpl.
  - pose proof (DrawRenderable_pruned binder perspective view) as Hp.
    unfold issued. rewrite (proj1 Hp r w). simpl. rewrite drop_issued.
    rewrite (pruned_traversal_leaves _ _ _ Hp r). by apply drawn_nodes_leaves.
  - pose proof (DrawRenderableWithShader_pruned shader binder perspective view) as Hp.
    unfold issued. rewrite (proj1 Hp r w). simpl. rewrite drop_issued.
    rewrite (pruned_traversal_leaves _ _ _ Hp r). by apply drawn_nodes_leaves.
  - pose proof (DrawLines_pruned shader binder perspective view) as Hp.
    unfold issued. rewrite (proj1 Hp r w). simpl. rewrite drop_issued.
    rewrite (pruned_traversal_leaves _ _ _ Hp r). by apply drawn_nodes_leaves.
Qed.

(** X2. Whatever the tree, the entry point and the world, a node handed to
    a draw call is visible and is not a group. *)
Theorem draw_never_draws_invisible_or_group (q : DrawRequest) (w : World) :
  Forall (fun n => IsVisible n = true /\ IsGroup n = false)
         (drawn_nodes (issued (draw q) w)).
Proof.
  destruct (draw_request_nodes q w) as [r ->]. apply visible_leaves_visible.
Qed.

(** X3. When every leaf the draw reaches carries the shader [shader],
    overriding the shader changes nothing: [DrawRenderableWithShader] with
    [shader] behaves as [DrawRenderable]. *)
Theorem DrawRenderableWithShader_same_shader
    (r : Renderable) (shader : RenderShader) (binder : RenderBinder)
    (perspective view : Mat4) (w : World) :
  (forall leaf, In leaf (visible_leaves r) -> Shader (Core leaf) = shader) ->
  DrawRenderableWithShader r shader binder perspective view w
  = DrawRenderable r binder perspective view w.
Proof.
  intros Hshader.
  pose proof (DrawRenderable_pruned binder perspective view) as H1.
  pose proof (DrawRenderableWithShader_pruned shader binder perspective view) as H2.
  rewrite (proj1 H1 r w), (proj1 H2 r w).
  rewrite (pruned_traversal_leaves _ _ _ H1 r), (pruned_traversal_leaves _ _ _ H2 r).
  do 3 f_equal.
  induction (visible_leaves r) as [|leaf leaves IH]; [done|].
  simpl. rewrite (Hshader leaf) by (by left).
  rewrite IH; [done|]. intros leaf' Hin. apply Hshader. by right.
Qed.

(** ** Counting lights: packing, and changes to the array *)

Lemma filter_all {A} (good : A -> bool) (l : list A) :
  Forall (fun a => good a = true) l -> List.filter good l = l.
Proof. induction 1 as [|a l Ha _ IH]; simpl; [done|]. by rewrite Ha, IH. Qed.

Lemma filter_none {A} (good : A -> bool) (l : list A) :
  Forall (fun a => good a = false) l -> List.filter good l = [].
Proof. induction 1 as [|a l Ha _ IH]; simpl; [done|]. by rewrite Ha. Qed.

(** A prefix of [n] good entries: at least [n] entries are good, and
    exactly [n] precisely when no entry from index [n] on is good. *)
Lemma good_prefix_count {A} (good : A -> bool) (slots : list A) (n : nat) :
  n <= length slots ->
  (forall i a, i < n -> slots !! i = Some a -> good a = true) ->
  n <= length (List.filter good slots) /\
  ((forall j a, n <= j -> slots !! j = Some a -> good a = false) <->
   length (List.filter good slots) = n).
Proof.
  intros Hn Hprefix.
  assert (List.filter good (take n slots) = take n slots) as Htake.
  { apply filter_all, Forall_lookup_2. intros i a [Ha Hi]%lookup_take_Some. eauto. }
  assert (length (List.filter good slots)
          = n + length (List.filter good (drop n slots))) as Hsplit.
  { rewrite <- (take_drop n slots) at 1.
    rewrite List.filter_app, length_app, Htake, length_take. lia. }
  split; [lia|]. split.
  - intros Hrest. rewrite Hsplit, filter_none; [simpl; lia|].
    apply Forall_lookup_2. intros i a Ha. rewrite lookup_drop in Ha.
    apply (Hrest (n + i)); [lia|done].
  - intros Hlen j a Hj Ha.
    destruct (good a) eqn:Hgood; [|done]. exfalso.
    assert (In a (List.filter good (drop n slots))) as Hin.
    { apply List.filter_In. split; [|done].
      apply list_elem_of_In, list_elem_of_lookup. exists (j - n).
      rewrite lookup_drop. by replace (n + (j - n)) with j by lia. }
    destruct (List.filter good (drop n slots)); [done|]. simpl in Hsplit. lia.
Qed.

(** X4. For a four-slot array, [GetActiveLightCount] never exceeds the
    number of lights in the array, and it equals that number exactly when
    the lights are packed at the front (no light sits behind a nil slot). *)
Theorem GetActiveLightCount_counts_packed_lights (fr : ForwardRenderer) :
  length (ActiveLights fr) = MaxForwardLights ->
  exists n,
    GetActiveLightCount fr = Some n /\
    n <= length (List.filter occupied (ActiveLights fr)) /\
    ((forall i j l, i <= j -> ActiveLights fr !! j = Some (Some l) ->
                    exists l', ActiveLights fr !! i = Some (Some l')) <->
     n = length (List.filter occupied (ActiveLights fr))).
Proof.
  intros Hlen.
  destruct (GetActiveLightCount_scan fr Hlen) as (n & Hn & Hle & Hbefore & Hat).
  exists n. split; [exact Hn|].
  destruct (good_prefix_count occupied (ActiveLights fr) n) as [Hcount Hiff].
  { lia. }
  { intros i a Hi Ha. destruct (Hbefore i Hi) as [l Hl]. by simplify_eq. }
  split; [exact Hcount|]. split.
  - intros Hpacked. symmetry. apply Hiff. intros j a Hj Ha.
    destruct a as [l|]; [|done]. exfalso.
    assert (j < MaxForwardLights) by (rewrite <- Hlen; by eapply lookup_lt_Some).
    destruct (Hpacked n j l Hj Ha) as [l' Hl'].
    rewrite Hat in Hl' by lia. done.
  - intros Heq i j l Hij Hj.
    destruct (decide (i < n)) as [Hi|Hi]; [by apply Hbefore|]. exfalso.
    assert (occupied (Some l) = false) as Hocc; [|done].
    apply (proj2 Hiff (eq_sym Heq) j); [lia|done].
Qed.

(** X5. For a four-slot array whose pointers all have a light behind them,
    [GetActiveShadowLightCount] never exceeds the number of slots holding a
    shadow-casting light, and it equals that number exactly when no
    shadow-casting light sits behind a slot that is nil or holds a light
    without a shadow map. *)
Theorem GetActiveShadowLightCount_counts_packed_shadow_lights
    (fr : ForwardRenderer) (hp : gmap LightPtr Light.t) :
  slots_ok fr hp ->
  exists n,
    GetActiveShadowLightCount fr hp = Some n /\
    n <= length (List.filter (casts_shadow hp) (ActiveLights fr)) /\
    ((forall i j a b, i <= j -> ActiveLights fr !! j = Some b ->
                      casts_shadow hp b = true ->
                      ActiveLights fr !! i = Some a -> casts_shadow hp a = true) <->
     n = length (List.filter (casts_shadow hp) (ActiveLights fr))).
Proof.
  intros Hok.
  destruct (GetActiveShadowLightCount_scan fr hp Hok)
    as (n & Hn & Hle & Hbefore & Hat).
  destruct Hok as [Hlen Halloc].
  exists n. split; [exact Hn|].
  destruct (good_prefix_count (casts_shadow hp) (ActiveLights fr) n) as [Hcount Hiff].
  { lia. }
  { intros i a Hi Ha. destruct (Hbefore i Hi) as (l & L & shady & Hl & HL & Hsm).
    simplify_eq. simpl. by rewrite HL, Hsm. }
  split; [exact Hcount|]. split.
  - intros Hpacked. symmetry. apply Hiff. intros j b Hj Hb.
    destruct (casts_shadow hp b) eqn:Hcast; [|done]. exfalso.
    assert (j < MaxForwardLights) by (rewrite <- Hlen; by eapply lookup_lt_Some).
    destruct (Hat ltac:(lia)) as [Hnil | (l & L & Hl & HL & Hsm)].
    + by specialize (Hpacked n j None b Hj Hb Hcast Hnil).
    + specialize (Hpacked n j (Some l) b Hj Hb Hcast Hl). simpl in Hpacked.
      by rewrite HL, Hsm in Hpacked.
  - intros Heq i j a b Hij Hb Hcast Ha.
    destruct (decide (i < n)) as [Hi|Hi].
    + destruct (Hbefore i Hi) as (l & L & shady & Hl & HL & Hsm).
      simplify_eq. simpl. by rewrite HL, Hsm.
    + exfalso. rewrite (proj2 Hiff (eq_sym Heq) j b) in Hcast; [done|lia|done].
Qed.

(** The count is the one number with the scan's two properties. *)
Lemma GetActiveLightCount_is (fr : ForwardRenderer) (n : nat) :
  length (ActiveLights fr) = MaxForwardLights ->
  n <= MaxForwardLights ->
  (forall i, i < n -> exists l, ActiveLights fr !! i = Some (Some l)) ->
  (n < MaxForwardLights -> ActiveLights fr !! n = Some None) ->
  GetActiveLightCount fr = Some n.
Proof.
  intros Hlen Hle Hbefore Hat.
  destruct (GetActiveLightCount_scan fr Hlen) as (m & Hm & Hmle & Hmbefore & Hmat).
  rewrite Hm. f_equal.
  destruct (lt_eq_lt_dec m n) as [[Hlt|Heq]|Hgt]; [|done|]; exfalso.
  - destruct (Hbefore m Hlt) as [l Hl]. rewrite Hmat in Hl by lia. done.
  - destruct (Hmbefore n Hgt) as [l Hl]. rewrite Hat in Hl by lia. done.
Qed.

(** X6. For a four-slot array with count [n]: setting a slot before the
    count to nil cuts the count down to that slot's index, whatever lights
    follow it; storing a light in slot [n] (when there is one) raises the
    count, to exactly [n + 1] when the next slot is nil or [n + 1] is the
    capacity. *)
Theorem GetActiveLightCount_after_slot_update (fr : ForwardRenderer) (n : nat) :
  length (ActiveLights fr) = MaxForwardLights ->
  GetActiveLightCount fr = Some n ->
  (forall i, i < n ->
     GetActiveLightCount (set_ActiveLights (<[i := None]> (ActiveLights fr)) fr)
     = Some i) /\
  (forall l, n < MaxForwardLights ->
     exists m,
       GetActiveLightCount (set_ActiveLights (<[n := Some l]> (ActiveLights fr)) fr)
       = Some m /\
       n < m /\
       (ActiveLights fr !! S n = Some None \/ S n = MaxForwardLights -> m = S n)).
Proof.
  intros Hlen Hn.
  destruct (GetActiveLightCount_scan fr Hlen) as (n' & Hn' & Hle & Hbefore & Hat).
  assert (n' = n) as -> by congruence.
  split.
  - intros i Hi. apply GetActiveLightCount_is; simpl.
    + by rewrite length_insert.
    + lia.
    + intros j Hj. rewrite list_lookup_insert_ne by lia. apply Hbefore. lia.
    + intros _. apply list_lookup_insert_eq. lia.
  - intros l Hlt.
    destruct (GetActiveLightCount_scan
                (set_ActiveLights (<[n := Some l]> (ActiveLights fr)) fr))
      as (m & Hm & Hmle & Hmbefore & Hmat); [simpl; by rewrite length_insert|].
    simpl in *. exists m. split; [exact Hm|].
    assert (n < m) as Hnm.
    { destruct (decide (n < m)) as [|Hge]; [done|]. exfalso.
      assert (m < MaxForwardLights) as Hm4 by lia. specialize (Hmat Hm4).
      destruct (decide (m = n)) as [->|Hne].
      - rewrite list_lookup_insert_eq in Hmat by lia. done.
      - rewrite list_lookup_insert_ne in Hmat by lia.
        destruct (Hbefore m ltac:(lia)) as [l' Hl']. congruence. }
    split; [exact Hnm|].
    intros Hnext. destruct (decide (m = S n)) as [|Hne]; [done|]. exfalso.
    destruct Hnext as [Hnil|Hcap]; [|lia].
    destruct (Hmbefore (S n) ltac:(lia)) as [l' Hl'].
    rewrite list_lookup_insert_ne in Hl' by lia. congruence.
Qed.

(** X7. Giving a shadow map to the light at which the shadow count stopped
    raises the shadow count and leaves the light count as it was: for a
    well-placed array whose shadow count is [n] and whose slot [n] holds
    [l], after [CreateShadowMap] on [l] the shadow count is greater than
    [n]. *)
Theorem CreateShadowMap_extends_shadow_count
    (w : World) (l : LightPtr) (n : nat)
    (textureSize : Z) (near far : float32) (dir : Vec3) :
  slots_ok (renderer w) (heap w) ->
  GetActiveShadowLightCount (renderer w) (heap w) = Some n ->
  ActiveLights (renderer w) !! n = Some (Some l) ->
  exists w' m,
    CreateShadowMap fresh_texture l textureSize near far dir w = Done tt w' /\
    slots_ok (renderer w') (heap w') /\
    GetActiveShadowLightCount (renderer w') (heap w') = Some m /\
    n < m /\
    GetActiveLightCount (renderer w') = GetActiveLightCount (renderer w).
Proof.
  intros Hok Hn Hslot.
  destruct (GetActiveShadowLightCount_scan _ _ Hok) as (n' & Hn' & Hle & Hbefore & Hat).
  assert (n' = n) as -> by congruence.
  destruct (proj2 Hok n l Hslot) as [L HL].
  destruct (CreateShadowMap_run fresh_texture w l L textureSize near far dir HL)
    as (tex & rest & shady' & Hrun & _).
  eexists. rewrite Hrun.
  set (hp' := <[l := Light.set_ShadowMap (Some shady') L]> (heap w)).
  assert (slots_ok (renderer w) hp') as Hok'.
  { split; [exact (proj1 Hok)|]. intros i l' Hl'.
    destruct (decide (l = l')) as [<-|Hne].
    - subst hp'. rewrite lookup_insert_eq. by eauto.
    - subst hp'. rewrite lookup_insert_ne by done. by apply (proj2 Hok i). }
  destruct (GetActiveShadowLightCount_scan _ _ Hok')
    as (m & Hm & Hmle & Hmbefore & Hmat).
  exists m. simpl. split_and!; [done|done|done| |done].
  assert (forall i, i <= n ->
            exists li Li shady, ActiveLights (renderer w) !! i = Some (Some li) /\
                                hp' !! li = Some Li /\
                                Light.ShadowMap Li = Some shady) as Hshadowed.
  { intros i Hi.
    assert (exists li, ActiveLights (renderer w) !! i = Some (Some li)
                       /\ (li = l \/ exists Li shady, heap w !! li = Some Li /\
                                       Light.ShadowMap Li = Some shady)) as (li & Hli & Hcase).
    { destruct (decide (i = n)) as [->|Hne]; [by eauto|].
      destruct (Hbefore i ltac:(lia)) as (li & Li & shady & Hli & HLi & Hsm).
      exists li. split; [done|]. right. by eauto. }
    exists li. destruct (decide (l = li)) as [<-|Hne].
    - do 2 eexists. split; [done|]. subst hp'. rewrite lookup_insert_eq. by split.
    - destruct Hcase as [->|(Li & shady & HLi & Hsm)]; [done|].
      exists Li, shady. subst hp'. by rewrite lookup_insert_ne. }
  destruct (decide (n < m)) as [|Hge]; [done|]. exfalso.
  assert (n < MaxForwardLights) as Hn4.
  { rewrite <- (proj1 Hok). by eapply lookup_lt_Some. }
  destruct (Hshadowed m ltac:(lia)) as (li & Li & shady & Hli & HLi & Hsm).
  destruct (Hmat ltac:(lia)) as [Hnil | (l'' & L'' & Hl'' & HL'' & Hsm'')];
    congruence.
Qed.

(** ** The life of a shadow map *)

(** One run of [CreateShadowMap], in full: the world it ends in. *)
Lemma CreateShadowMap_world (w : World) (l : LightPtr) (L : Light.t)
    (textureSize : Z) (near far : float32) (dir : Vec3) :
  heap w !! l = Some L ->
  let released := match Light.ShadowMap L with
                  | Some old => [DeleteTexture (ShadowMap.Texture old)]
                  | None => []
                  end in
  let tex := fresh_texture (calls w ++ released) in
  let shady :=
    ShadowMap.Build tex textureSize dir near far
      (const32 0.0%Q, const32 1.0%Q, const32 0.0%Q)
      (Frustum (neg32 (const32 0.5%Q)) (const32 0.5%Q)
               (neg32 (const32 0.5%Q)) (const32 0.5%Q) near far)
      Ident4 (repeat (const32 0%Q) 16) (repeat (const32 0%Q) 16) in
  CreateShadowMap fresh_texture l textureSize near far dir w
  = Done tt
      (mkWorld (renderer w)
         (<[l := Light.set_ShadowMap (Some shady) L]> (heap w))
         (calls w ++ released ++
          [GenTexture tex;
           ActiveTexture graphics.TEXTURE0;
           BindTexture graphics.TEXTURE_2D tex;
           TexImage2D graphics.TEXTURE_2D 0 graphics.DEPTH_COMPONENT32
             textureSize textureSize 0 graphics.DEPTH_COMPONENT graphics.UNSIGNED_INT;
           TexParameteri graphics.TEXTURE_2D graphics.TEXTURE_MAG_FILTER graphics.LINEAR;
           TexParameteri graphics.TEXTURE_2D graphics.TEXTURE_MIN_FILTER graphics.LINEAR;
           TexParameterfv graphics.TEXTURE_2D graphics.TEXTURE_BORDER_COLOR
             (const32 1.0%Q, const32 1.0%Q, const32 1.0%Q, const32 1.0%Q);
           TexParameteri graphics.TEXTURE_2D graphics.TEXTURE_WRAP_S
             graphics.CLAMP_TO_BORDER;
           TexParameteri graphics.TEXTURE_2D graphics.TEXTURE_WRAP_T
             graphics.CLAMP_TO_BORDER;
           TexParameteri graphics.TEXTURE_2D graphics.TEXTURE_COMPARE_MODE
             graphics.COMPARE_REF_TO_TEXTURE;
           BindTexture graphics.TEXTURE_2D 0%N])).
Proof.
  intros Hl. cbv zeta.
  unfold CreateShadowMap, ShadowMap_Destroy, gfx_GenTexture, bind, load, store, gfx, ret.
  rewrite Hl.
  destruct (Light.ShadowMap L) as [old|]; cbn; rewrite <- ?app_assoc; cbn;
    rewrite ?app_nil_r; reflexivity.
Qed.

(** X8. [CreateShadowMap] on a light behind [l] succeeds and replaces the
    light's shadow map by one with the texture the device generated, the
    given size, planes and direction, the up vector (0,1,0), the frustum of
    half-extent 0.5 as projection, the identity as view, and all-zero
    view-projection and biased matrices (they are only filled by
    [UpdateShadowMapData]).  Nothing else of the light changes, no other
    light changes, and the renderer is untouched. *)
Theorem CreateShadowMap_result (w : World) (l : LightPtr) (L : Light.t)
    (textureSize : Z) (near far : float32) (dir : Vec3) :
  heap w !! l = Some L ->
  exists w' tex,
    CreateShadowMap fresh_texture l textureSize near far dir w = Done tt w' /\
    generated (issued (CreateShadowMap fresh_texture l textureSize near far dir) w)
    = [tex] /\
    renderer w' = renderer w /\
    heap w' =
      <[l := Light.Build
               (Light.Position L) (Light.Direction L) (Light.DiffuseColor L)
               (Light.DiffuseIntensity L) (Light.AmbientIntensity L)
               (Light.Attenuation L)
               (Some (ShadowMap.Build tex textureSize dir near far
                        (const32 0.0%Q, const32 1.0%Q, const32 0.0%Q)
                        (Frustum (neg32 (const32 0.5%Q)) (const32 0.5%Q)
                                 (neg32 (const32 0.5%Q)) (const32 0.5%Q) near far)
                        Ident4 (repeat (const32 0%Q) 16) (repeat (const32 0%Q) 16)))]>
        (heap w) /\
    (forall l', l' <> l -> heap w' !! l' = heap w !! l').
Proof.
  intros Hl. pose proof (CreateShadowMap_world w l L textureSize near far dir Hl) as Hrun.
  cbv zeta in Hrun.
  eexists _, (fresh_texture
                (calls w ++ match Light.ShadowMap L with
                            | Some old => [DeleteTexture (ShadowMap.Texture old)]
                            | None => []
                            end)).
  split; [exact Hrun|].
  unfold issued. rewrite Hrun. simpl. rewrite drop_issued.
  split_and!.
  - rewrite generated_app. by destruct (Light.ShadowMap L).
  - reflexivity.
  - reflexivity.
  - intros l' Hne. by rewrite lookup_insert_ne.
Qed.

Lemma fold_left_neutral {S C} (f : S -> C -> S) (delta : list C) :
  Forall (fun c => forall st, f st c = st) delta ->
  forall st, fold_left f delta st = st.
Proof.
  induction 1 as [|c delta Hc _ IH]; intros st; simpl; [done|].
  by rewrite Hc, IH.
Qed.

Lemma viewports_app (cs cs' : list GfxCall) :
  viewports (cs ++ cs') = viewports cs ++ viewports cs'.
Proof.
  induction cs as [|c cs IH]; [done|]. destruct c; simpl; by rewrite ?IH.
Qed.

(** X9. [CreateShadowMap] leaves the render state of the device alone and
    leaves no texture bound: face-culling direction, framebuffer binding and
    every capability are as before, no depth attachment and no viewport is
    set, and the 2D texture bound at the end is 0. *)
Theorem CreateShadowMap_leaves_render_state (w : World) (l : LightPtr) (L : Light.t)
    (textureSize : Z) (near far : float32) (dir : Vec3) :
  heap w !! l = Some L ->
  exists w',
    CreateShadowMap fresh_texture l textureSize near far dir w = Done tt w' /\
    bound_texture_2d (calls w') = 0%N /\
    cull_face_mode (calls w') = cull_face_mode (calls w) /\
    bound_framebuffer (calls w') = bound_framebuffer (calls w) /\
    (forall cap, cap_enabled cap (calls w') = cap_enabled cap (calls w)) /\
    depth_attachments (issued (CreateShadowMap fresh_texture l textureSize near far dir) w)
    = [] /\
    viewports (issued (CreateShadowMap fresh_texture l textureSize near far dir) w) = [].
Proof.
  intros Hl. pose proof (CreateShadowMap_world w l L textureSize near far dir Hl) as Hrun.
  cbv zeta in Hrun. eexists. split; [exact Hrun|].
  unfold issued. rewrite Hrun.
  cbn [calls final_world]. rewrite drop_issued.
  unfold bound_texture_2d, cull_face_mode, bound_framebuffer, cap_enabled.
  rewrite !fold_left_app.
  split_and!.
  - reflexivity.
  - do 2 (rewrite fold_left_neutral;
            [|destruct (Light.ShadowMap L); by repeat constructor]).
    reflexivity.
  - do 2 (rewrite fold_left_neutral;
            [|destruct (Light.ShadowMap L); by repeat constructor]).
    reflexivity.
  - intros cap. rewrite !fold_left_app.
    do 2 (rewrite fold_left_neutral;
            [|destruct (Light.ShadowMap L); by repeat constructor]).
    reflexivity.
  - destruct (Light.ShadowMap L); reflexivity.
  - destruct (Light.ShadowMap L); reflexivity.
Qed.

(** Several [CreateShadowMap] calls in a row on one light: what they add to
    the log. *)
Lemma CreateShadowMap_sequence (args : list ShadowMapArgs) :
  forall (a : ShadowMapArgs) (w : World) (l : LightPtr) (L : Light.t),
    heap w !! l = Some L ->
    exists w' delta L' shady',
      range (fun a => CreateShadowMap fresh_texture l (arg_textureSize a)
                        (arg_near a) (arg_far a) (arg_dir a))
            (a :: args) w = Done tt w' /\
      calls w' = calls w ++ delta /\
      heap w' !! l = Some L' /\ Light.ShadowMap L' = Some shady' /\
      length (generated delta) = S (length args) /\
      deleted delta
      = match Light.ShadowMap L with
        | Some old => [ShadowMap.Texture old]
        | None => []
        end ++ removelast (generated delta) /\
      last (generated delta) = Some (ShadowMap.Texture shady').
Proof.
  induction args as [|b args IH]; intros a w l L Hl.
  - destruct (CreateShadowMap_run fresh_texture w l L (arg_textureSize a)
                (arg_near a) (arg_far a) (arg_dir a) Hl)
      as (tex & rest & shady' & Hrun & Htex & Hdel & Hgen).
    do 4 eexists. simpl. unfold bind. rewrite Hrun. simpl.
    split; [reflexivity|]. split; [reflexivity|].
    split; [apply lookup_insert_eq|]. split; [reflexivity|].
    rewrite deleted_app, generated_app. simpl. rewrite Hdel, Hgen, Htex.
    destruct (Light.ShadowMap L); simpl; by split_and!.
  - destruct (CreateShadowMap_run fresh_texture w l L (arg_textureSize a)
                (arg_near a) (arg_far a) (arg_dir a) Hl)
      as (tex & rest & shady1 & Hrun & Htex & Hdel & Hgen).
    set (w1 := mkWorld (renderer w)
                 (<[l := Light.set_ShadowMap (Some shady1) L]> (heap w))
                 (calls w ++ match Light.ShadowMap L with
                             | Some old => [DeleteTexture (ShadowMap.Texture old)]
                             | None => []
                             end ++ GenTexture tex :: rest)) in *.
    destruct (IH b w1 l (Light.set_ShadowMap (Some shady1) L))
      as (w' & delta & L' & shady' & Hrest & Hcalls & Hl' & Hsm' & Hlen & Hdeleted & Hlast).
    { apply lookup_insert_eq. }
    exists w', ((match Light.ShadowMap L with
                 | Some old => [DeleteTexture (ShadowMap.Texture old)]
                 | None => []
                 end ++ GenTexture tex :: rest) ++ delta), L', shady'.
    split.
    { change (range ?f (a :: b :: args)) with (bind (f a) (fun _ => range f (b :: args))).
      unfold bind at 1. rewrite Hrun. exact Hrest. }
    split; [by rewrite Hcalls, app_assoc|].
    split; [exact Hl'|]. split; [exact Hsm'|].
    rewrite !deleted_app, !generated_app. simpl. rewrite Hdel, Hgen, Hdeleted.
    simpl in *. rewrite Htex in *.
    destruct (generated delta) as [|g gs] eqn:Hgs; [simpl in Hlen; lia|].
    destruct (Light.ShadowMap L); simpl; rewrite ?length_app; simpl;
      (split_and!; [simpl in Hlen; lia|done|done]).
Qed.

(** X10. Any number of [CreateShadowMap] calls in a row on one light
    (at least one): all succeed; they generate one texture per call; the
    textures they release are the one the light owned at first, if any,
    followed by each generated texture but the last, in order; and the
    light ends up owning the last texture generated. *)
Theorem CreateShadowMap_sequence_balanced
    (a : ShadowMapArgs) (args : list ShadowMapArgs)
    (w : World) (l : LightPtr) (L : Light.t) :
  heap w !! l = Some L ->
  let creates := range (fun a => CreateShadowMap fresh_texture l (arg_textureSize a)
                                   (arg_near a) (arg_far a) (arg_dir a))
                       (a :: args) in
  exists w' L' shady',
    creates w = Done tt w' /\
    heap w' !! l = Some L' /\ Light.ShadowMap L' = Some shady' /\
    length (generated (issued creates w)) = S (length args) /\
    deleted (issued creates w)
    = match Light.ShadowMap L with
      | Some old => [ShadowMap.Texture old]
      | None => []
      end ++ removelast (generated (issued creates w)) /\
    last (generated (issued creates w)) = Some (ShadowMap.Texture shady').
Proof.
  intros Hl creates. subst creates.
  destruct (CreateShadowMap_sequence args a w l L Hl)
    as (w' & delta & L' & shady' & Hrun & Hcalls & Hl' & Hsm' & Hlen & Hdel & Hlast).
  exists w', L', shady'. unfold issued. rewrite Hrun. simpl.
  rewrite Hcalls, drop_issued. by split_and!.
Qed.

(** X11. [UpdateShadowMapData] is idempotent, whether the light casts
    shadows or not: running it twice in a row is running it once.  It
    touches neither the renderer nor the device nor any other light. *)
Theorem UpdateShadowMapData_idempotent (w : World) (l : LightPtr) :
  bind (UpdateShadowMapData l) (fun _ => UpdateShadowMapData l) w
  = UpdateShadowMapData l w /\
  renderer (final_world (UpdateShadowMapData l w)) = renderer w /\
  calls (final_world (UpdateShadowMapData l w)) = calls w /\
  (forall l', l' <> l ->
     heap (final_world (UpdateShadowMapData l w)) !! l' = heap w !! l').
Proof.
  split.
  - unfold bind. destruct (UpdateShadowMapData l w) as [[] w1|w1] eqn:Hrun; [|done].
    by apply UpdateShadowMapData_twice in Hrun.
  - unfold UpdateShadowMapData, bind, load, store, ret.
    destruct (heap w !! l) as [L|]; [|done].
    destruct (Light.ShadowMap L); simpl; split_and!; try done.
    intros l' Hne. by rewrite lookup_insert_ne.
Qed.

(** X12. [CreateShadowMap] followed by [UpdateShadowMapData] on a light at
    position [P]: the shadow map's view is the look-at matrix from [P]
    toward [P + dir] with up vector (0,1,0), its view-projection is the
    half-extent-0.5 frustum of the given planes times that view, and its
    biased matrix is [shadowBiasMat] times that view-projection. *)
Theorem CreateShadowMap_then_UpdateShadowMapData
    (w : World) (l : LightPtr) (L : Light.t)
    (textureSize : Z) (near far : float32) (dir : Vec3) :
  heap w !! l = Some L ->
  exists w' L' shady',
    bind (CreateShadowMap fresh_texture l textureSize near far dir)
         (fun _ => UpdateShadowMapData l) w = Done tt w' /\
    heap w' !! l = Some L' /\ Light.ShadowMap L' = Some shady' /\
    Light.Position L' = Light.Position L /\
    ShadowMap.View shady'
    = LookAtV (Light.Position L) (Vec3_Add (Light.Position L) dir)
              (const32 0.0%Q, const32 1.0%Q, const32 0.0%Q) /\
    ShadowMap.ViewProjMatrix shady'
    = Mat4_Mul4 (Frustum (neg32 (const32 0.5%Q)) (const32 0.5%Q)
                         (neg32 (const32 0.5%Q)) (const32 0.5%Q) near far)
                (ShadowMap.View shady') /\
    ShadowMap.BiasedMatrix shady'
    = Mat4_Mul4 shadowBiasMat (ShadowMap.ViewProjMatrix shady').
Proof.
  intros Hl. pose proof (CreateShadowMap_world w l L textureSize near far dir Hl) as Hrun.
  cbv zeta in Hrun. unfold bind. rewrite Hrun.
  unfold UpdateShadowMapData, bind, load, store, ret. simpl.
  rewrite lookup_insert_eq. simpl.
  do 3 eexists. split; [reflexivity|]. simpl. rewrite lookup_insert_eq.
  split; [reflexivity|]. by split_and!.
Qed.

(** X13. After [CreateShadowMap] on a light, [EnableShadowMappingLight] on
    it does not panic: it attaches the texture [CreateShadowMap] generated
    as depth target, once, sets the viewport to the square of the requested
    texture size, and records the light as the current shadow-pass light. *)
Theorem CreateShadowMap_then_EnableShadowMappingLight
    (w : World) (l : LightPtr) (L : Light.t)
    (textureSize : Z) (near far : float32) (dir : Vec3) :
  heap w !! l = Some L ->
  let both := bind (CreateShadowMap fresh_texture l textureSize near far dir)
                   (fun _ => EnableShadowMappingLight l) in
  exists w',
    both w = Done tt w' /\
    depth_attachments (issued both w) = generated (issued both w) /\
    length (generated (issued both w)) = 1 /\
    viewports (issued both w) = [(0, 0, textureSize, textureSize)%Z] /\
    currentShadowPassLight (renderer w') = Some l.
Proof.
  intros Hl both. subst both.
  pose proof (CreateShadowMap_world w l L textureSize near far dir Hl) as Hrun.
  cbv zeta in Hrun. unfold bind at 1 3 4 5. rewrite Hrun.
  erewrite EnableShadowMappingLight_run; [|apply lookup_insert_eq|reflexivity].
  eexists. split; [reflexivity|].
  unfold issued, bind. rewrite Hrun.
  erewrite EnableShadowMappingLight_run; [|apply lookup_insert_eq|reflexivity].
  simpl. rewrite <- !app_assoc, !drop_issued.
  destruct (Light.ShadowMap L); simpl; by split_and!.
Qed.

(** ** The shadow pass: setting up, bracketing, many lights, failure *)

Lemma StartShadowMapping_run (w : World) :
  StartShadowMapping w
  = Done tt (mkWorld (set_currentShadowPassLight None (renderer w)) (heap w)
               (calls w ++
                [BindFramebuffer graphics.FRAMEBUFFER (shadowFBO (renderer w));
                 Enable graphics.POLYGON_OFFSET_FILL;
                 PolygonOffset (const32 4.0%Q) (const32 4.0%Q);
                 Enable graphics.CULL_FACE; CullFace graphics.FRONT])).
Proof.
  unfold StartShadowMapping, bind, gfx, get_renderer, put_renderer.
  cbn [calls set_calls set_renderer renderer heap]. by rewrite <- !app_assoc.
Qed.

Lemma EndShadowMapping_run (w : World) :
  EndShadowMapping w
  = Done tt (mkWorld (set_currentShadowPassLight None (renderer w)) (heap w)
               (calls w ++
                [CullFace graphics.BACK; Disable graphics.CULL_FACE;
                 Disable graphics.POLYGON_OFFSET_FILL;
                 BindFramebuffer graphics.FRAMEBUFFER 0%N])).
Proof.
  unfold EndShadowMapping, bind, gfx, get_renderer, put_renderer.
  cbn [calls set_calls set_renderer renderer heap]. by rewrite <- !app_assoc.
Qed.

(** X14. [SetupShadowMapRendering] generates one framebuffer, stores its
    name in the renderer, configures it with no colour draw or read buffer
    and leaves no framebuffer bound; a [StartShadowMapping] after it binds
    that framebuffer, culls front faces with culling and the polygon offset
    enabled, and clears the current shadow-pass light.  On a renderer that
    was never set up, [StartShadowMapping] binds framebuffer 0. *)
Theorem SetupShadowMapRendering_then_StartShadowMapping (w : World) :
  (exists w1 w2 fbo,
     SetupShadowMapRendering fresh_framebuffer w = Done tt w1 /\
     issued (SetupShadowMapRendering fresh_framebuffer) w
     = [GenFramebuffer fbo; BindFramebuffer graphics.FRAMEBUFFER fbo;
        DrawBuffers [graphics.NONE]; ReadBuffer graphics.NONE;
        BindFramebuffer graphics.FRAMEBUFFER 0%N] /\
     shadowFBO (renderer w1) = fbo /\
     bound_framebuffer (calls w1) = 0%N /\
     heap w1 = heap w /\
     StartShadowMapping w1 = Done tt w2 /\
     bound_framebuffer (calls w2) = fbo /\
     cull_face_mode (calls w2) = graphics.FRONT /\
     cap_enabled graphics.CULL_FACE (calls w2) = true /\
     cap_enabled graphics.POLYGON_OFFSET_FILL (calls w2) = true /\
     currentShadowPassLight (renderer w2) = None /\
     heap w2 = heap w) /\
  (forall hp cs,
     bound_framebuffer
       (calls (final_world (StartShadowMapping (mkWorld NewForwardRenderer hp cs))))
     = 0%N).
Proof.
  split.
  - set (fbo := fresh_framebuffer (calls w)).
    set (setup := [GenFramebuffer fbo; BindFramebuffer graphics.FRAMEBUFFER fbo;
                   DrawBuffers [graphics.NONE]; ReadBuffer graphics.NONE;
                   BindFramebuffer graphics.FRAMEBUFFER 0%N]).
    set (w1 := mkWorld (set_shadowFBO fbo (renderer w)) (heap w) (calls w ++ setup)).
    set (started := [BindFramebuffer graphics.FRAMEBUFFER fbo;
                     Enable graphics.POLYGON_OFFSET_FILL;
                     PolygonOffset (const32 4.0%Q) (const32 4.0%Q);
                     Enable graphics.CULL_FACE; CullFace graphics.FRONT]).
    set (w2 := mkWorld (set_currentShadowPassLight None (renderer w1)) (heap w)
                       (calls w1 ++ started)).
    assert (SetupShadowMapRendering fresh_framebuffer w = Done tt w1) as Hsetup.
    { unfold SetupShadowMapRendering, gfx_GenFramebuffer, bind, gfx,
        get_renderer, put_renderer.
      cbn [calls set_calls set_renderer renderer heap]. subst w1 setup fbo.
      by rewrite <- !app_assoc. }
    assert (StartShadowMapping w1 = Done tt w2) as Hstart.
    { unfold StartShadowMapping, bind, gfx, get_renderer, put_renderer.
      cbn [calls set_calls set_renderer renderer heap]. subst w2 started.
      by rewrite <- !app_assoc. }
    exists w1, w2, fbo. split; [exact Hsetup|].
    unfold issued. rewrite Hsetup. cbn [final_world]. subst w2 w1.
    cbn [calls renderer heap shadowFBO set_shadowFBO currentShadowPassLight
         set_currentShadowPassLight].
    rewrite drop_issued.
    unfold bound_framebuffer, cull_face_mode, cap_enabled.
    rewrite !fold_left_app.
    by split_and!.
  - intros hp cs.
    unfold StartShadowMapping, bind, gfx, get_renderer, put_renderer.
    cbn [calls final_world set_calls set_renderer renderer].
    unfold bound_framebuffer. rewrite !fold_left_app. reflexivity.
Qed.

(** X15. Whatever state the device and the renderer are in,
    [EndShadowMapping] succeeds and leaves back-face culling direction,
    no framebuffer bound, no current shadow-pass light, and both the polygon
    offset and face culling itself disabled: culling that was enabled
    before the shadow pass is off after it.  Every other capability and all
    lights are as before. *)
Theorem EndShadowMapping_resets (w : World) :
  exists w',
    EndShadowMapping w = Done tt w' /\
    cull_face_mode (calls w') = graphics.BACK /\
    bound_framebuffer (calls w') = 0%N /\
    cap_enabled graphics.CULL_FACE (calls w') = false /\
    cap_enabled graphics.POLYGON_OFFSET_FILL (calls w') = false /\
    (forall cap, cap <> graphics.CULL_FACE -> cap <> graphics.POLYGON_OFFSET_FILL ->
                 cap_enabled cap (calls w') = cap_enabled cap (calls w)) /\
    currentShadowPassLight (renderer w') = None /\
    heap w' = heap w /\
    (exists w'', bind StartShadowMapping (fun _ => EndShadowMapping) w = Done tt w'' /\
                 cap_enabled graphics.CULL_FACE (calls w'') = false).
Proof.
  eexists. split; [apply EndShadowMapping_run|].
  cbn [calls renderer heap currentShadowPassLight set_currentShadowPassLight].
  unfold bound_framebuffer, cull_face_mode, cap_enabled.
  rewrite !fold_left_app.
  split_and!; try reflexivity.
  - intros cap Hcull Hoffset. rewrite fold_left_app. cbn [fold_left].
    destruct (decide (graphics.CULL_FACE = cap)); [congruence|].
    destruct (decide (graphics.POLYGON_OFFSET_FILL = cap)); [congruence|].
    reflexivity.
  - eexists. split.
    + unfold bind. rewrite StartShadowMapping_run. apply EndShadowMapping_run.
    + cbn [calls]. rewrite !fold_left_app. reflexivity.
Qed.

Lemma shadow_texture_after_recompute (hp : gmap LightPtr Light.t)
    (l : LightPtr) (L : Light.t) (shady : ShadowMap.t) :
  hp !! l = Some L -> Light.ShadowMap L = Some shady ->
  forall l',
    shadow_texture
      (<[l := Light.set_ShadowMap (Some (recompute (Light.Position L) shady)) L]> hp) l'
    = shadow_texture hp l' /\
    shadow_texture_size
      (<[l := Light.set_ShadowMap (Some (recompute (Light.Position L) shady)) L]> hp) l'
    = shadow_texture_size hp l'.
Proof.
  intros Hl Hsm l'. unfold shadow_texture, shadow_texture_size.
  destruct (decide (l = l')) as [<-|Hne].
  - rewrite lookup_insert_eq, Hl. simpl. by rewrite Hsm.
  - by rewrite lookup_insert_ne.
Qed.

(** Draw requests add only draw steps to the log. *)
Lemma draws_run_steps (qs : list DrawRequest) :
  exists cs, Forall (fun c => is_draw_step c = true) cs /\
             forall w, range draw qs w = Done tt (set_calls (calls w ++ cs) w).
Proof.
  induction qs as [|q qs (cs & Hcs & Hrun)]; simpl.
  - exists []. split; [constructor|]. intros [fr hp cs]. unfold ret, set_calls. simpl.
    by rewrite app_nil_r.
  - destruct (draw_run q) as [Hq Hsteps].
    exists (emitted (draw q) ++ cs). split; [by apply Forall_app|].
    intros w. unfold bind. rewrite Hq, Hrun. unfold set_calls. simpl.
    by rewrite app_assoc.
Qed.

Lemma viewports_draw_steps (cs : list GfxCall) :
  Forall (fun c => is_draw_step c = true) cs -> viewports cs = [].
Proof.
  induction 1 as [|c cs Hc _ IH]; [done|]. by destruct c.
Qed.

(** The per-light part of a shadow pass. *)
Lemma shadow_passes_run (passes : list (LightPtr * list DrawRequest)) :
  forall w,
    Forall (fun pass => is_Some (shadow_texture (heap w) pass.1)) passes ->
    exists w' delta,
      range (fun pass => bind (EnableShadowMappingLight pass.1)
                              (fun _ => range draw pass.2)) passes w
      = Done tt w' /\
      calls w' = calls w ++ delta /\
      (forall l, shadow_texture (heap w') l = shadow_texture (heap w) l) /\
      map Some (depth_attachments delta)
      = map (fun pass => shadow_texture (heap w) pass.1) passes /\
      map Some (viewports delta)
      = map (fun pass => option_map (fun size => (0, 0, size, size)%Z)
                           (shadow_texture_size (heap w) pass.1)) passes.
Proof.
  induction passes as [|[l draws] passes IH]; intros w Hall.
  - exists w, []. simpl. unfold ret. by rewrite app_nil_r.
  - apply Forall_cons in Hall as [[tex Htex] Hall]. simpl in Htex.
    assert (exists L shady, heap w !! l = Some L /\ Light.ShadowMap L = Some shady)
      as (L & shady & Hl & Hsm).
    { unfold shadow_texture in Htex. destruct (heap w !! l) as [L|]; [|done].
      destruct (Light.ShadowMap L) as [shady|] eqn:Hsm; [|done]. by eauto. }
    pose proof (EnableShadowMappingLight_run w l L shady Hl Hsm) as Henable.
    pose proof (shadow_texture_after_recompute (heap w) l L shady Hl Hsm) as Hkeep.
    destruct (draws_run_steps draws) as (cs & Hcs & Hdraws).
    set (enabled := [FramebufferTexture2D graphics.FRAMEBUFFER graphics.DEPTH_ATTACHMENT
                       graphics.TEXTURE_2D (ShadowMap.Texture shady) 0;
                     Clear graphics.DEPTH_BUFFER_BIT;
                     Viewport 0 0 (ShadowMap.TextureSize shady)
                                  (ShadowMap.TextureSize shady)]) in *.
    set (hp1 := <[l := Light.set_ShadowMap
                         (Some (recompute (Light.Position L) shady)) L]> (heap w)) in *.
    set (w2 := mkWorld (set_currentShadowPassLight (Some l) (renderer w)) hp1
                       ((calls w ++ enabled) ++ cs)).
    destruct (IH w2) as (w' & delta & Hrun & Hcalls & Htexs & Hdepth & Hviews).
    { eapply Forall_impl; [exact Hall|]. intros pass Hpass. simpl.
      by rewrite (proj1 (Hkeep pass.1)). }
    exists w', (enabled ++ cs ++ delta). split_and!.
    + simpl. unfold bind at 1 2. rewrite Henable, Hdraws. exact Hrun.
    + rewrite Hcalls. simpl. by rewrite <- !app_assoc.
    + intros l'. rewrite Htexs. simpl. apply Hkeep.
    + rewrite !depth_attachments_app, (depth_attachments_draw_steps _ Hcs).
      simpl. rewrite Hdepth. f_equal.
      * unfold shadow_texture. by rewrite Hl, Hsm.
      * apply map_ext. intros pass. simpl. apply Hkeep.
    + rewrite !viewports_app, (viewports_draw_steps _ Hcs).
      simpl. rewrite Hviews. f_equal.
      * unfold shadow_texture_size. by rewrite Hl, Hsm.
      * apply map_ext. intros pass. simpl. by rewrite (proj2 (Hkeep pass.1)).
Qed.

(** X16. A shadow pass over any number of lights that all cast shadows,
    with any draws after each: it runs to its end; it attaches as depth
    target exactly the lights' textures, one per light in the order given,
    and sets for each the viewport to the square of its texture size; it
    leaves back-face culling direction, the polygon offset disabled, no
    framebuffer bound and no current shadow-pass light; and every light
    keeps its texture. *)
Theorem shadow_pass_over_attaches_each_light_in_order
    (w : World) (passes : list (LightPtr * list DrawRequest)) :
  Forall (fun pass => is_Some (shadow_texture (heap w) pass.1)) passes ->
  exists w',
    shadow_pass_over passes w = Done tt w' /\
    map Some (depth_attachments (issued (shadow_pass_over passes) w))
    = map (fun pass => shadow_texture (heap w) pass.1) passes /\
    map Some (viewports (issued (shadow_pass_over passes) w))
    = map (fun pass => option_map (fun size => (0, 0, size, size)%Z)
                         (shadow_texture_size (heap w) pass.1)) passes /\
    cull_face_mode (calls w') = graphics.BACK /\
    cap_enabled graphics.POLYGON_OFFSET_FILL (calls w') = false /\
    bound_framebuffer (calls w') = 0%N /\
    currentShadowPassLight (renderer w') = None /\
    (forall l, shadow_texture (heap w') l = shadow_texture (heap w) l).
Proof.
  intros Hall.
  set (started := [BindFramebuffer graphics.FRAMEBUFFER (shadowFBO (renderer w));
                   Enable graphics.POLYGON_OFFSET_FILL;
                   PolygonOffset (const32 4.0%Q) (const32 4.0%Q);
                   Enable graphics.CULL_FACE; CullFace graphics.FRONT]).
  set (w1 := mkWorld (set_currentShadowPassLight None (renderer w)) (heap w)
                     (calls w ++ started)).
  assert (StartShadowMapping w = Done tt w1) as Hstart.
  { apply StartShadowMapping_run. }
  destruct (shadow_passes_run passes w1 Hall)
    as (w2 & delta & Hrun & Hcalls & Htexs & Hdepth & Hviews).
  set (ended := [CullFace graphics.BACK; Disable graphics.CULL_FACE;
                 Disable graphics.POLYGON_OFFSET_FILL;
                 BindFramebuffer graphics.FRAMEBUFFER 0%N]).
  set (w3 := mkWorld (set_currentShadowPassLight None (renderer w2)) (heap w2)
                     (calls w2 ++ ended)).
  assert (EndShadowMapping w2 = Done tt w3) as Hend.
  { apply EndShadowMapping_run. }
  assert (shadow_pass_over passes w = Done tt w3) as Hpass.
  { unfold shadow_pass_over. unfold bind at 1. rewrite Hstart. cbv beta iota.
    unfold bind at 1. rewrite Hrun. exact Hend. }
  exists w3. split; [exact Hpass|].
  unfold issued. rewrite Hpass. cbn [final_world]. subst w3. cbn [calls renderer heap].
  rewrite Hcalls. subst w1. cbn [calls heap] in *.
  rewrite <- !app_assoc, drop_issued.
  rewrite !depth_attachments_app, !viewports_app.
  unfold cull_face_mode, cap_enabled, bound_framebuffer.
  rewrite !fold_left_app.
  split_and!; try reflexivity.
  - subst started ended. cbn [depth_attachments app]. rewrite app_nil_r. exact Hdepth.
  - subst started ended. cbn [viewports app]. rewrite app_nil_r. exact Hviews.
  - exact Htexs.
Qed.

(** X17. When the second light of a shadow pass has no shadow map, the
    pass panics at its [EnableShadowMappingLight] and [EndShadowMapping]
    never runs: the device is left with the shadow framebuffer bound, front
    faces culled and the polygon offset enabled, the first light's texture
    is the only one attached, and the renderer's current shadow-pass light
    is the light that failed. *)
Theorem shadow_pass_panic_leaves_shadow_state
    (w : World) (l1 l2 : LightPtr) (L1 L2 : Light.t) (shady1 : ShadowMap.t)
    (draws1 draws2 : list DrawRequest) :
  heap w !! l1 = Some L1 -> Light.ShadowMap L1 = Some shady1 ->
  heap w !! l2 = Some L2 -> Light.ShadowMap L2 = None ->
  exists w',
    shadow_pass l1 draws1 l2 draws2 w = Panicked w' /\
    bound_framebuffer (calls w') = shadowFBO (renderer w) /\
    cull_face_mode (calls w') = graphics.FRONT /\
    cap_enabled graphics.POLYGON_OFFSET_FILL (calls w') = true /\
    cap_enabled graphics.CULL_FACE (calls w') = true /\
    depth_attachments (issued (shadow_pass l1 draws1 l2 draws2) w)
    = [ShadowMap.Texture shady1] /\
    currentShadowPassLight (renderer w') = Some l2.
Proof.
  intros Hl1 Hsm1 Hl2 Hsm2.
  assert (l1 <> l2) as Hne by (intros ->; congruence).
  destruct (draws_run_steps draws1) as (cs & Hcs & Hdraws).
  set (started := [BindFramebuffer graphics.FRAMEBUFFER (shadowFBO (renderer w));
                   Enable graphics.POLYGON_OFFSET_FILL;
                   PolygonOffset (const32 4.0%Q) (const32 4.0%Q);
                   Enable graphics.CULL_FACE; CullFace graphics.FRONT]).
  set (w1 := mkWorld (set_currentShadowPassLight None (renderer w)) (heap w)
                     (calls w ++ started)).
  assert (StartShadowMapping w = Done tt w1) as Hstart.
  { apply StartShadowMapping_run. }
  pose proof (EnableShadowMappingLight_run w1 l1 L1 shady1 Hl1 Hsm1) as Henable.
  set (enabled := [FramebufferTexture2D graphics.FRAMEBUFFER graphics.DEPTH_ATTACHMENT
                     graphics.TEXTURE_2D (ShadowMap.Texture shady1) 0;
                   Clear graphics.DEPTH_BUFFER_BIT;
                   Viewport 0 0 (ShadowMap.TextureSize shady1)
                                (ShadowMap.TextureSize shady1)]) in *.
  set (hp1 := <[l1 := Light.set_ShadowMap
                        (Some (recompute (Light.Position L1) shady1)) L1]> (heap w)) in *.
  set (w2 := mkWorld (set_currentShadowPassLight (Some l1) (renderer w1)) hp1
                     ((calls w1 ++ enabled) ++ cs)).
  set (w3 := set_renderer (set_currentShadowPassLight (Some l2) (renderer w2)) w2).
  assert (EnableShadowMappingLight l2 w2 = Panicked w3) as Hpanic.
  { unfold EnableShadowMappingLight, UpdateShadowMapData, shadow_map_of,
      bind, load, get_renderer, put_renderer.
    cbn [heap set_renderer renderer calls]. subst w2 hp1. cbn [heap].
    rewrite lookup_insert_ne by done. rewrite Hl2, Hsm2. cbn.
    rewrite lookup_insert_ne by done. rewrite Hl2, Hsm2. reflexivity. }
  assert (shadow_pass l1 draws1 l2 draws2 w = Panicked w3) as Hpass.
  { unfold shadow_pass. unfold bind at 1. rewrite Hstart. cbv beta iota.
    unfold bind at 1. rewrite Henable. cbv beta iota.
    unfold bind at 1. rewrite Hdraws. cbv beta iota.
    unfold bind at 1.
    change (EnableShadowMappingLight l2 _) with (EnableShadowMappingLight l2 w2).
    by rewrite Hpanic. }
  exists w3. split; [exact Hpass|].
  unfold issued. rewrite Hpass. cbn [final_world]. subst w3 w2 w1.
  cbn [calls renderer heap set_renderer].
  rewrite <- !app_assoc, drop_issued.
  rewrite !depth_attachments_app, (depth_attachments_draw_steps _ Hcs).
  unfold cull_face_mode, cap_enabled, bound_framebuffer.
  rewrite !fold_left_app.
  assert (forall S (f : S -> GfxCall -> S),
            (forall st c, is_draw_step c = true -> f st c = st) ->
            forall st, fold_left f cs st = st) as Hskip.
  { intros S f Hf st. apply fold_left_neutral.
    eapply Forall_impl; [exact Hcs|]. intros c Hc st'. by apply Hf. }
  rewrite !Hskip by (by intros st []).
  by split_and!.
Qed.

(** ** Changing the resolution *)

(** X18. [ChangeResolution] stores the new dimensions and then runs the
    resize callback, if there is one, exactly once and in a world where
    [GetResolution] already returns the new dimensions.  A nil callback is
    skipped, and the callback [NewForwardRenderer] installs behaves like
    none.  Of two calls without callback the later one decides the
    resolution, and neither touches lights, device or the light array. *)
Theorem ChangeResolution_stores_then_calls_back
    (w : World) (width height width2 height2 : Z) :
  let stored := set_renderer (set_height height (set_width width (renderer w))) w in
  GetResolution stored = Done (width, height) stored /\
  ChangeResolution None width height w = Done tt stored /\
  ChangeResolution default_OnScreenSizeChanged width height w = Done tt stored /\
  (forall callback,
     ChangeResolution (Some callback) width height w = callback width height stored) /\
  (exists w2,
     bind (ChangeResolution None width height)
          (fun _ => ChangeResolution None width2 height2) w = Done tt w2 /\
     GetResolution w2 = Done (width2, height2) w2 /\
     heap w2 = heap w /\ calls w2 = calls w /\
     ActiveLights (renderer w2) = ActiveLights (renderer w)).
Proof.
  cbv zeta. split_and!; try reflexivity.
  eexists. split; [reflexivity|]. by split_and!.
Qed.

End FurtherProperties.

(** * The further properties at the sample world *)

Section FurtherAtSample.
#[local] Existing Instance SymbolicMgl32.
#[local] Existing Instance NumberedScene.

Lemma DrawRenderableWithShader_same_shader_sample :
  (forall leaf, In leaf (visible_leaves sample_tree) -> Shader (Core leaf) = 11%N) /\
  DrawRenderableWithShader sample_tree 11%N 6%N [] [] sample_world
  = DrawRenderable sample_tree 6%N [] [] sample_world.
Proof.
  assert (forall leaf, In leaf (visible_leaves sample_tree) -> Shader (Core leaf) = 11%N)
    as Hleaves.
  { intros leaf Hin. simpl in Hin. destruct Hin as [<-|[]]. reflexivity. }
  split; [exact Hleaves|].
  exact (DrawRenderableWithShader_same_shader sample_tree 11%N 6%N [] []
           sample_world Hleaves).
Defined.

Lemma GetActiveLightCount_counts_packed_lights_sample :
  length (ActiveLights sample_renderer) = MaxForwardLights /\
  exists n, GetActiveLightCount sample_renderer = Some n /\
            n <= length (List.filter occupied (ActiveLights sample_renderer)).
Proof.
  split; [reflexivity|].
  destruct (GetActiveLightCount_counts_packed_lights sample_renderer eq_refl)
    as (n & Hn & Hle & _).
  exists n. split; [exact Hn|exact Hle].
Defined.

Lemma GetActiveShadowLightCount_counts_packed_shadow_lights_sample :
  slots_ok sample_renderer sample_heap /\
  exists n, GetActiveShadowLightCount sample_renderer sample_heap = Some n /\
            n <= length (List.filter (casts_shadow sample_heap)
                                     (ActiveLights sample_renderer)).
Proof.
  split; [exact sample_slots_ok|].
  destruct (GetActiveShadowLightCount_counts_packed_shadow_lights
              sample_renderer sample_heap sample_slots_ok)
    as (n & Hn & Hle & _).
  exists n. split; [exact Hn|exact Hle].
Defined.

Lemma GetActiveLightCount_after_slot_update_sample :
  length (ActiveLights sample_renderer) = MaxForwardLights /\
  GetActiveLightCount sample_renderer = Some 2 /\
  GetActiveLightCount
    (set_ActiveLights (<[0 := None]> (ActiveLights sample_renderer)) sample_renderer)
  = Some 0.
Proof.
  split; [reflexivity|]. split; [reflexivity|].
  destruct (GetActiveLightCount_after_slot_update sample_renderer 2 eq_refl eq_refl)
    as [Hclear _].
  apply Hclear. lia.
Defined.

Lemma sample_plain_first_slots_ok :
  slots_ok (renderer sample_world_plain_first) (heap sample_world_plain_first).
Proof.
  split; [reflexivity|].
  intros [|[|[|[|i]]]] l Hl; simpl in Hl; try discriminate;
    injection Hl as <-; vm_compute; eauto.
Defined.

Lemma CreateShadowMap_extends_shadow_count_sample :
  slots_ok (renderer sample_world_plain_first) (heap sample_world_plain_first) /\
  GetActiveShadowLightCount (renderer sample_world_plain_first)
                            (heap sample_world_plain_first) = Some 0 /\
  ActiveLights (renderer sample_world_plain_first) !! 0 = Some (Some 3%positive) /\
  exists w' m,
    CreateShadowMap counting_device 3%positive 512%Z (const32 1.0%Q) (const32 100.0%Q)
      (const32 0.0%Q, neg32 (const32 1.0%Q), const32 0.0%Q)
      sample_world_plain_first = Done tt w' /\
    GetActiveShadowLightCount (renderer w') (heap w') = Some m /\ 0 < m.
Proof.
  split; [exact sample_plain_first_slots_ok|]. split; [reflexivity|].
  split; [reflexivity|].
  destruct (CreateShadowMap_extends_shadow_count counting_device
              sample_world_plain_first 3%positive 0 512%Z
              (const32 1.0%Q) (const32 100.0%Q)
              (const32 0.0%Q, neg32 (const32 1.0%Q), const32 0.0%Q)
              sample_plain_first_slots_ok eq_refl eq_refl)
    as (w' & m & Hrun & _ & Hm & Hlt & _).
  exists w', m. split; [exact Hrun|]. split; [exact Hm|exact Hlt].
Defined.

Lemma CreateShadowMap_result_sample :
  heap sample_world !! 1%positive = Some (sample_shadow_light 7%N) /\
  exists w' tex,
    CreateShadowMap counting_device 1%positive 512%Z (const32 1.0%Q) (const32 100.0%Q)
      (const32 0.0%Q, neg32 (const32 1.0%Q), const32 0.0%Q) sample_world = Done tt w' /\
    generated (issued (CreateShadowMap counting_device 1%positive 512%Z
                         (const32 1.0%Q) (const32 100.0%Q)
                         (const32 0.0%Q, neg32 (const32 1.0%Q), const32 0.0%Q))
                      sample_world) = [tex] /\
    renderer w' = renderer sample_world.
Proof.
  split; [reflexivity|].
  destruct (CreateShadowMap_result counting_device sample_world 1%positive
              (sample_shadow_light 7%N) 512%Z (const32 1.0%Q) (const32 100.0%Q)
              (const32 0.0%Q, neg32 (const32 1.0%Q), const32 0.0%Q) eq_refl)
    as (w' & tex & Hrun & Hgen & Hfr & _).
  exists w', tex. split; [exact Hrun|]. split; [exact Hgen|exact Hfr].
Defined.

Lemma CreateShadowMap_leaves_render_state_sample :
  heap sample_world !! 1%positive = Some (sample_shadow_light 7%N) /\
  exists w',
    CreateShadowMap counting_device 1%positive 512%Z (const32 1.0%Q) (const32 100.0%Q)
      (const32 0.0%Q, neg32 (const32 1.0%Q), const32 0.0%Q) sample_world = Done tt w' /\
    bound_texture_2d (calls w') = 0%N /\
    bound_framebuffer (calls w') = bound_framebuffer (calls sample_world).
Proof.
  split; [reflexivity|].
  destruct (CreateShadowMap_leaves_render_state counting_device sample_world 1%positive
              (sample_shadow_light 7%N) 512%Z (const32 1.0%Q) (const32 100.0%Q)
              (const32 0.0%Q, neg32 (const32 1.0%Q), const32 0.0%Q) eq_refl)
    as (w' & Hrun & Hbound & _ & Hfbo & _).
  exists w'. split; [exact Hrun|]. split; [exact Hbound|exact Hfbo].
Defined.

Lemma CreateShadowMap_sequence_balanced_sample :
  heap sample_world !! 3%positive = Some sample_plain_light /\
  exists w',
    range (fun a => CreateShadowMap counting_device 3%positive (arg_textureSize a)
                      (arg_near a) (arg_far a) (arg_dir a))
          [sample_args; sample_args; sample_args] sample_world = Done tt w' /\
    length (generated
              (issued (range (fun a => CreateShadowMap counting_device 3%positive
                                         (arg_textureSize a) (arg_near a)
                                         (arg_far a) (arg_dir a))
                             [sample_args; sample_args; sample_args])
                      sample_world)) = 3.
Proof.
  split; [reflexivity|].
  destruct (CreateShadowMap_sequence_balanced counting_device sample_args
              [sample_args; sample_args] sample_world 3%positive sample_plain_light
              eq_refl)
    as (w' & L' & shady' & Hrun & _ & _ & Hlen & _).
  exists w'. split; [exact Hrun|exact Hlen].
Defined.

Lemma CreateShadowMap_then_UpdateShadowMapData_sample :
  heap sample_world !! 3%positive = Some sample_plain_light /\
  exists w' L' shady',
    bind (CreateShadowMap counting_device 3%positive 512%Z (const32 1.0%Q)
            (const32 100.0%Q)
            (const32 0.0%Q, neg32 (const32 1.0%Q), const32 0.0%Q))
         (fun _ => UpdateShadowMapData 3%positive) sample_world = Done tt w' /\
    heap w' !! 3%positive = Some L' /\ Light.ShadowMap L' = Some shady' /\
    ShadowMap.View shady'
    = LookAtV (Light.Position sample_plain_light)
              (Vec3_Add (Light.Position sample_plain_light)
                        (const32 0.0%Q, neg32 (const32 1.0%Q), const32 0.0%Q))
              (const32 0.0%Q, const32 1.0%Q, const32 0.0%Q).
Proof.
  split; [reflexivity|].
  destruct (CreateShadowMap_then_UpdateShadowMapData counting_device sample_world
              3%positive sample_plain_light 512%Z (const32 1.0%Q) (const32 100.0%Q)
              (const32 0.0%Q, neg32 (const32 1.0%Q), const32 0.0%Q) eq_refl)
    as (w' & L' & shady' & Hrun & HL' & Hsm' & _ & Hview & _).
  exists w', L', shady'. split; [exact Hrun|]. split; [exact HL'|].
  split; [exact Hsm'|exact Hview].
Defined.

Lemma CreateShadowMap_then_EnableShadowMappingLight_sample :
  heap sample_world !! 3%positive = Some sample_plain_light /\
  exists w',
    bind (CreateShadowMap counting_device 3%positive 512%Z (const32 1.0%Q)
            (const32 100.0%Q)
            (const32 0.0%Q, neg32 (const32 1.0%Q), const32 0.0%Q))
         (fun _ => EnableShadowMappingLight 3%positive) sample_world = Done tt w' /\
    currentShadowPassLight (renderer w') = Some 3%positive.
Proof.
  split; [reflexivity|].
  destruct (CreateShadowMap_then_EnableShadowMappingLight counting_device sample_world
              3%positive sample_plain_light 512%Z (const32 1.0%Q) (const32 100.0%Q)
              (const32 0.0%Q, neg32 (const32 1.0%Q), const32 0.0%Q) eq_refl)
    as (w' & Hrun & _ & _ & _ & Hcurrent).
  exists w'. split; [exact Hrun|exact Hcurrent].
Defined.

Lemma sample_passes_cast_shadows :
  Forall (fun pass : LightPtr * list DrawRequest =>
            is_Some (shadow_texture (heap sample_world) pass.1))
         [(1%positive, [ReqDrawRenderableWithShader sample_tree 5%N 6%N [] []]);
          (2%positive, [ReqDrawLines sample_tree 5%N 6%N [] []]);
          (1%positive, [])].
Proof. repeat constructor; vm_compute; eauto. Defined.

Lemma shadow_pass_over_attaches_each_light_in_order_sample :
  Forall (fun pass : LightPtr * list DrawRequest =>
            is_Some (shadow_texture (heap sample_world) pass.1))
         [(1%positive, [ReqDrawRenderableWithShader sample_tree 5%N 6%N [] []]);
          (2%positive, [ReqDrawLines sample_tree 5%N 6%N [] []]);
          (1%positive, [])] /\
  exists w',
    shadow_pass_over
      [(1%positive, [ReqDrawRenderableWithShader sample_tree 5%N 6%N [] []]);
       (2%positive, [ReqDrawLines sample_tree 5%N 6%N [] []]);
       (1%positive, [])] sample_world = Done tt w' /\
    cull_face_mode (calls w') = graphics.BACK /\
    bound_framebuffer (calls w') = 0%N.
Proof.
  split; [exact sample_passes_cast_shadows|].
  destruct (shadow_pass_over_attaches_each_light_in_order sample_world _
              sample_passes_cast_shadows)
    as (w' & Hrun & _ & _ & Hcull & _ & Hfbo & _).
  exists w'. split; [exact Hrun|]. split; [exact Hcull|exact Hfbo].
Defined.

Lemma shadow_pass_panic_leaves_shadow_state_sample :
  heap sample_world !! 1%positive = Some (sample_shadow_light 7%N) /\
  heap sample_world !! 3%positive = Some sample_plain_light /\
  exists w',
    shadow_pass 1%positive [] 3%positive [] sample_world = Panicked w' /\
    cull_face_mode (calls w') = graphics.FRONT /\
    depth_attachments (issued (shadow_pass 1%positive [] 3%positive []) sample_world)
    = [7%N].
Proof.
  split; [reflexivity|]. split; [reflexivity|].
  destruct (shadow_pass_panic_leaves_shadow_state sample_world 1%positive 3%positive
              (sample_shadow_light 7%N) sample_plain_light (sample_shadow_map 7%N)
              [] [] eq_refl eq_refl eq_refl eq_refl)
    as (w' & Hrun & _ & Hcull & _ & _ & Hdepth & _).
  exists w'. split; [exact Hrun|]. split; [exact Hcull|exact Hdepth].
Defined.

(** The shadow pass over the sample lights, evaluated: textures 7, 9, 7
    attached in that order, each with a 1024 by 1024 viewport. *)
Example sample_shadow_pass_over :
  depth_attachments
    (issued (shadow_pass_over
               [(1%positive, [ReqDrawRenderableWithShader sample_tree 5%N 6%N [] []]);
                (2%positive, [ReqDrawLines sample_tree 5%N 6%N [] []]);
                (1%positive, [])]) sample_world)
  = [7%N; 9%N; 7%N] /\
  viewports
    (issued (shadow_pass_over
               [(1%positive, [ReqDrawRenderableWithShader sample_tree 5%N 6%N [] []]);
                (2%positive, [ReqDrawLines sample_tree 5%N 6%N [] []]);
                (1%positive, [])]) sample_world)
  = [(0, 0, 1024, 1024); (0, 0, 1024, 1024); (0, 0, 1024, 1024)]%Z.
Proof. by vm_compute. Qed.

End FurtherAtSample.
